(** * The RSC hot-module-replacement plugin of waku, embedded in Rocq

    Source: the module that defines [rscHmrPlugin], [moduleImport],
    [generateInitialScripts] and [hotUpdate].

    The development follows the file top-down:
    - [JsString]: the [String.prototype] methods the plugin calls;
    - [JsSet]: an ECMAScript [Set] holding objects, insertion ordered,
      compared by reference;
    - the [transform] hook;
    - the module state ([modulePendingMap]), the suspended [moduleImport]
      calls and the trace of what was handed to [vite.hot.send];
    - [moduleImport], [hotUpdate], the [connection] event;
    - [generateInitialScripts] and the tags it pushes;
    - the client-side [rsc-reload] handler of [injectingHmrCode];
    - from the command line entry point: the command dispatch, the
      [deploy] target of [runBuild], [startServer] and [loadApi]. *)

From Stdlib Require Import String Ascii List Bool Arith Lia.
From stdpp Require Import gmap strings list.

Local Open Scope string_scope.
Local Open Scope list_scope.

(** ** JavaScript strings *)

Module JsString.

(** [s.startsWith(p)] *)
Definition startsWith (s p : string) : bool := String.prefix p s.

(** [s.endsWith(p)]: the last [length p] code units of [s] are [p]. *)
Definition endsWith (s p : string) : bool :=
  (String.length p <=? String.length s)%nat &&
  String.eqb
    (String.substring (String.length s - String.length p) (String.length p) s) p.

(** [s.includes(p)], by scanning every start position. *)
Fixpoint includes (s p : string) : bool :=
  String.prefix p s ||
  match s with
  | EmptyString => false
  | String _ s' => includes s' p
  end.

(** [s.replace(pattern, replacement)] with a string pattern: only the
    first occurrence is replaced, and a string without occurrence is
    returned as it is.  The replacement is inserted literally: the
    replacements the plugin passes contain no [$] (lemma
    [replacements_have_no_dollar] below), so no [$&]-style substitution
    applies. *)
Definition replace (s pattern replacement : string) : string :=
  match String.index 0 pattern s with
  | None => s
  | Some i =>
      String.substring 0 i s +:+ replacement +:+
      String.substring (i + String.length pattern)
                       (String.length s - (i + String.length pattern)) s
  end.

(** ASCII lower-casing, as the HTML parser applies to attribute names. *)
Definition lower_ascii (c : ascii) : ascii :=
  let n := nat_of_ascii c in
  if (65 <=? n)%nat && (n <=? 90)%nat then ascii_of_nat (n + 32) else c.

Fixpoint toLowerCase (s : string) : string :=
  match s with
  | EmptyString => EmptyString
  | String c s' => String (lower_ascii c) (toLowerCase s')
  end.

End JsString.

(** ** The [transform] hook (source lines 81-131) *)

Definition FETCH_RSC_LINE : string :=
  "export const fetchRSC = (input, searchParamsString, setElements, cache = fetchCache)=>{".

Definition fetchRSC_injection : string :=
"
{
  const refetchRsc = () => {
    cache.splice(0);
    const data = fetchRSC(input, searchParamsString, setElements, cache);
    setElements(data);
  };
  globalThis.__WAKU_RSC_RELOAD_LISTENERS__ ||= [];
  const index = globalThis.__WAKU_RSC_RELOAD_LISTENERS__.indexOf(globalThis.__WAKU_REFETCH_RSC__);
  if (index !== -1) {
    globalThis.__WAKU_RSC_RELOAD_LISTENERS__.splice(index, 1, refetchRsc);
  } else {
    globalThis.__WAKU_RSC_RELOAD_LISTENERS__.push(refetchRsc);
  }
  globalThis.__WAKU_REFETCH_RSC__ = refetchRsc;
}
".

Definition INNER_ROUTER_LINE : string := "function InnerRouter() {".

Definition innerRouter_injection : string :=
"
{
  const refetchRoute = () => {
    const input = getInputString(loc.path);
    refetch(input, loc.searchParams);
  };
  globalThis.__WAKU_RSC_RELOAD_LISTENERS__ ||= [];
  const index = globalThis.__WAKU_RSC_RELOAD_LISTENERS__.indexOf(globalThis.__WAKU_REFETCH_ROUTE__);
  if (index !== -1) {
    globalThis.__WAKU_RSC_RELOAD_LISTENERS__.splice(index, 1, refetchRoute);
  } else {
    globalThis.__WAKU_RSC_RELOAD_LISTENERS__.unshift(refetchRoute);
  }
  globalThis.__WAKU_REFETCH_ROUTE__ = refetchRoute;
}
".

(** [wakuClientDist] and [wakuRouterClientDist] are computed in
    [rscHmrPlugin] from [import.meta.url] with the helpers of
    [../utils/path.js]; they are the two parameters of the hook here.
    The hook returns [undefined] ([None]) for every other module. *)
Definition transform (wakuClientDist wakuRouterClientDist : string)
    (code id : string) : option string :=
  if JsString.startsWith id wakuClientDist then
    Some (JsString.replace code FETCH_RSC_LINE
            (FETCH_RSC_LINE +:+ fetchRSC_injection))
  else if JsString.startsWith id wakuRouterClientDist then
    Some (JsString.replace code INNER_ROUTER_LINE
            (INNER_ROUTER_LINE +:+ innerRouter_injection))
  else None.

(** ** Objects, the [Set] of results, and the payloads *)

(** A [ViteDevServer] object and a websocket client are known by their
    identity only. *)
Abbreviation ViteDevServer := nat (only parsing).
Abbreviation Client := nat (only parsing).

(** [ModuleImportResult] (source lines 14-19).  [ref] is the identity of
    the JavaScript object: two results with different [ref] are two
    objects, whatever their fields hold. *)
Record ModuleImportResult := mkResult {
  ref : nat;
  code : string;
  id : string;
  source : string;
  css : option bool
}.

Module JsSet.

(** SameValueZero on objects is reference equality. *)
Definition sameValueZero (a b : ModuleImportResult) : bool :=
  Nat.eqb (ref a) (ref b).

(** A [Set<ModuleImportResult>]: its elements in insertion order. *)
Definition has (s : list ModuleImportResult) (x : ModuleImportResult) : bool :=
  existsb (sameValueZero x) s.

Definition add (s : list ModuleImportResult) (x : ModuleImportResult)
  : list ModuleImportResult :=
  if has s x then s else s ++ [x].

Definition clear (s : list ModuleImportResult) : list ModuleImportResult := [].

(** How many times the object [x] is held. *)
Definition occurrences (s : list ModuleImportResult) (x : ModuleImportResult) : nat :=
  List.length (List.filter (sameValueZero x) s).

End JsSet.

(** [HotUpdatePayload] (source lines 208-212). *)
Inductive HotUpdatePayload :=
| full_reload
| rsc_reload
| hot_import (data : string)
| module_import (data : ModuleImportResult).

(** What can be observed from outside the module, in order: a
    [connection] event of [vite.ws], and a call [vite.hot.send(payload)]. *)
Inductive Event :=
| Connection (vite : ViteDevServer) (client : Client)
| Sent (vite : ViteDevServer) (payload : HotUpdatePayload).

(** The state the module's functions act on.
    - [modulePendingMap] is the [WeakMap<ViteDevServer, Set<...>>] of
      source line 135;
    - [suspended] holds the calls of [moduleImport] that are waiting at
      [await waitForConnection(viteServer)], oldest first;
    - [trace] is the history of events. *)
Record State := mkState {
  modulePendingMap : gmap nat (list ModuleImportResult);
  suspended : list (ViteDevServer * ModuleImportResult);
  trace : list Event
}.

Definition init : State := mkState ∅ [] [].

(** [vite.hot.send(payload)] *)
Definition hot_send (vite : ViteDevServer) (payload : HotUpdatePayload)
    (st : State) : State :=
  mkState (modulePendingMap st) (suspended st) (trace st ++ [Sent vite payload]).

(** ** [moduleImport] (source lines 137-156) *)

(** Lines 147-155, the part every call runs, at once or when its wait is
    over.  The local variable [sourceSet] is the [Set] object stored under
    [viteServer]: an entry of the map is never replaced nor deleted
    ([clear] empties the object in place), so the object is read back
    from the map.  A suspended call always finds it (lemma
    [reachable_suspended_have_set]); the branch [None] only makes the
    function total. *)
Definition moduleImport_resume (viteServer : ViteDevServer)
    (result : ModuleImportResult) (st : State) : State :=
  match modulePendingMap st !! viteServer with
  | None => st
  | Some sourceSet =>
      if JsSet.has sourceSet result then st
      else
        hot_send viteServer (module_import result)
          (mkState (<[viteServer := JsSet.add sourceSet result]> (modulePendingMap st))
                   (suspended st) (trace st))
  end.

(** The call itself: it runs up to its first [await].  With no set under
    [viteServer] ([!sourceSet]: a [Set], even an empty one, is truthy) it
    stores a new one and waits for a [connection] event; otherwise it
    goes on at once. *)
Definition moduleImport (viteServer : ViteDevServer)
    (result : ModuleImportResult) (st : State) : State :=
  match modulePendingMap st !! viteServer with
  | None =>
      mkState (<[viteServer := []]> (modulePendingMap st))
              (suspended st ++ [(viteServer, result)]) (trace st)
  | Some _ => moduleImport_resume viteServer result st
  end.

(** ** [hotUpdate] (source lines 214-223) *)

(** [modulePendingMap.get(vite)?.clear()]: the set, when there is one, is
    emptied in place; no entry is created. *)
Definition optional_clear (vite : ViteDevServer)
    (m : gmap nat (list ModuleImportResult)) : gmap nat (list ModuleImportResult) :=
  match m !! vite with
  | None => m
  | Some sourceSet => <[vite := JsSet.clear sourceSet]> m
  end.

(** The chain of tests has no branch for [hot-import]: control falls out
    of the function. *)
Definition hotUpdate (vite : ViteDevServer) (payload : HotUpdatePayload)
    (st : State) : State :=
  match payload with
  | full_reload => hot_send vite payload st
  | rsc_reload =>
      hot_send vite payload
        (mkState (optional_clear vite (modulePendingMap st))
                 (suspended st) (trace st))
  | module_import data => moduleImport vite data st
  | hot_import _ => st
  end.

(** ** The [connection] event of [vite.ws] *)

(** [waitForConnection] (lines 56-58) registers [resolve] as a listener;
    the event calls the listeners in registration order, and the
    continuations of the resolved promises run in that order, before any
    other task.  Each suspended call of this server goes on with lines
    147-155; calls on other servers stay suspended. *)
Definition connection (vite : ViteDevServer) (client : Client) (st : State) : State :=
  let woken := List.filter (λ w, Nat.eqb (fst w) vite) (suspended st) in
  let others := List.filter (λ w, negb (Nat.eqb (fst w) vite)) (suspended st) in
  fold_left (λ acc w, moduleImport_resume (fst w) (snd w) acc) woken
    (mkState (modulePendingMap st) others (trace st ++ [Connection vite client])).

(** What the outside does to the module. *)
Inductive Action :=
| HotUpdate (vite : ViteDevServer) (payload : HotUpdatePayload)
| Connect (vite : ViteDevServer) (client : Client).

Definition step (a : Action) (st : State) : State :=
  match a with
  | HotUpdate vite payload => hotUpdate vite payload st
  | Connect vite client => connection vite client st
  end.

Definition run (actions : list Action) (st : State) : State :=
  fold_left (λ acc a, step a acc) actions st.

(** The states the module can be in. *)
Definition reachable (st : State) : Prop := ∃ actions, st = run actions init.

(** ** Reading the state and the trace *)

(** [modulePendingMap.get(vite)?.has(result)], with [undefined] read as
    [false]. *)
Definition recorded (st : State) (vite : ViteDevServer) (result : ModuleImportResult) : bool :=
  match modulePendingMap st !! vite with
  | None => false
  | Some sourceSet => JsSet.has sourceSet result
  end.

Definition records (st : State) (vite : ViteDevServer) (result : ModuleImportResult) : nat :=
  match modulePendingMap st !! vite with
  | None => 0
  | Some sourceSet => JsSet.occurrences sourceSet result
  end.

(** The results sent as [module-import] on [vite], in order. *)
Fixpoint module_imports (vite : ViteDevServer) (tr : list Event) : list ModuleImportResult :=
  match tr with
  | [] => []
  | Sent v (module_import r) :: tr' =>
      if Nat.eqb v vite then r :: module_imports vite tr' else module_imports vite tr'
  | _ :: tr' => module_imports vite tr'
  end.

(** How many [module-import] events on [vite] carried the object [result]. *)
Definition transported (tr : list Event) (vite : ViteDevServer)
    (result : ModuleImportResult) : nat :=
  JsSet.occurrences (module_imports vite tr) result.

(** The part of the trace that follows the first [connection] event of
    [vite]; [None] while there was none. *)
Fixpoint after_first_connection (vite : ViteDevServer) (tr : list Event)
    : option (list Event) :=
  match tr with
  | [] => None
  | Connection v c :: tr' =>
      if Nat.eqb v vite then Some tr' else after_first_connection vite tr'
  | _ :: tr' => after_first_connection vite tr'
  end.

(** Every [module-import] event on [vite] comes after a [connection]
    event of [vite]. *)
Fixpoint gated (vite : ViteDevServer) (tr : list Event) : bool :=
  match tr with
  | [] => true
  | Connection v c :: tr' => Nat.eqb v vite || gated vite tr'
  | Sent v (module_import _) :: tr' => negb (Nat.eqb v vite) && gated vite tr'
  | _ :: tr' => gated vite tr'
  end.

(** Every suspended call has a set under its server. *)
Definition suspended_have_set (st : State) : bool :=
  forallb (λ w, match modulePendingMap st !! fst w with Some _ => true | None => false end)
          (suspended st).

(** ** [generateInitialScripts] (source lines 158-206) *)

Inductive InjectTo := head | body | head_prepend | body_prepend.

(** Vite's [HtmlTagDescriptor].  [attrs] lists the properties of the
    object literal in the order they are written; all the values written
    by [generateInitialScripts] are strings. *)
Record HtmlTagDescriptor := mkTag {
  tag : string;
  attrs : list (string * string);
  children : option string;
  injectTo : InjectTo
}.

(** Line 21. *)
Definition WAKU_ATTR_NAME : string := "waku-module-id".

(** Lines 181-185: the tag that parse-blocks on the vite client. *)
Definition blockingViteClient : HtmlTagDescriptor :=
  mkTag "script"
        [("type", "module"); ("blocking", "render"); ("src", "/@vite/client")]
        None head_prepend.

(** Lines 188-194.  The property is written [WAKU_ATTR_NAME: result.id],
    without brackets: its key is the identifier's own text. *)
Definition cssModuleScript (result : ModuleImportResult) : HtmlTagDescriptor :=
  mkTag "script"
        [("type", "module"); ("WAKU_ATTR_NAME", id result)]
        (Some (code result)) head_prepend.

(** Lines 197-202, with the same property key. *)
Definition styleTag (result : ModuleImportResult) : HtmlTagDescriptor :=
  mkTag "style"
        [("type", "text/css"); ("WAKU_ATTR_NAME", id result)]
        (Some (source result)) body.

Definition isCssModule (result : ModuleImportResult) : bool :=
  JsString.endsWith (id result) ".module.css".

(** The [for ... of] loop over the set, with the flag
    [injectedBlockingViteClient] as it stands when the element is
    reached; the result is what the loop pushes from there on. *)
Fixpoint initialScripts_loop (sourceSet : list ModuleImportResult)
    (injectedBlockingViteClient : bool) : list HtmlTagDescriptor :=
  match sourceSet with
  | [] => []
  | result :: rest =>
      if isCssModule result then
        (if injectedBlockingViteClient then [] else [blockingViteClient])
          ++ cssModuleScript result :: initialScripts_loop rest true
      else
        styleTag result :: initialScripts_loop rest injectedBlockingViteClient
  end.

Definition generateInitialScripts (viteServer : option ViteDevServer)
    (st : State) : list HtmlTagDescriptor :=
  match viteServer with
  | None => []
  | Some vite =>
      match modulePendingMap st !! vite with
      | None => []
      | Some sourceSet => initialScripts_loop sourceSet false
      end
  end.

(** ** The [rsc-reload] handler of [injectingHmrCode] (lines 29-37) *)

(** An element matches the selector [[name]] when it has an attribute of
    that name; in an HTML document attribute names compare without regard
    to ASCII case. *)
Definition matches_attribute_selector (name : string) (el : HtmlTagDescriptor) : bool :=
  existsb (λ kv, String.eqb (JsString.toLowerCase (fst kv)) (JsString.toLowerCase name))
          (attrs el).

(** [document.querySelectorAll('[waku-module-id]')]: the template
    interpolates [WAKU_ATTR_NAME] into the selector. *)
Definition wakuTags (document : list HtmlTagDescriptor) : list HtmlTagDescriptor :=
  List.filter (matches_attribute_selector WAKU_ATTR_NAME) document.

(** The document once every element of [wakuTags] is removed. *)
Definition rsc_reload_handler (document : list HtmlTagDescriptor) : list HtmlTagDescriptor :=
  List.filter (λ el, negb (matches_attribute_selector WAKU_ATTR_NAME el)) document.

(** The value found under an attribute name, if any. *)
Definition getAttribute (name : string) (el : HtmlTagDescriptor) : option string :=
  snd <$> List.find (λ kv, String.eqb (fst kv) name) (attrs el).

(** The marker the [transform] hook looks for in the module [id]. *)
Definition expected_marker (wakuClientDist wakuRouterClientDist id : string)
    : option string :=
  if JsString.startsWith id wakuClientDist then Some FETCH_RSC_LINE
  else if JsString.startsWith id wakuRouterClientDist then Some INNER_ROUTER_LINE
  else None.

#[global] Instance InjectTo_eq_dec : EqDecision InjectTo.
Proof. solve_decision. Defined.

#[global] Instance HtmlTagDescriptor_eq_dec : EqDecision HtmlTagDescriptor.
Proof. solve_decision. Defined.

(** How many of the tags are the parse-blocking one. *)
Definition blocking_count (tags : list HtmlTagDescriptor) : nat :=
  count_occ HtmlTagDescriptor_eq_dec tags blockingViteClient.

(** [r] is held [n] times by the set of [vite], at least once, and was
    sent [k] times on [vite]. *)
Definition delivered (st : State) (vite : ViteDevServer) (r : ModuleImportResult)
    (n k : nat) : Prop :=
  recorded st vite r = true ∧ records st vite r = n
  ∧ transported (trace st) vite r = k.

(** The results sent as [module-import] on [vite] since the last
    [rsc-reload] sent on [vite], in order. *)
Definition since_reload_step (vite : ViteDevServer)
    (acc : list ModuleImportResult) (e : Event) : list ModuleImportResult :=
  match e with
  | Sent v rsc_reload => if Nat.eqb v vite then [] else acc
  | Sent v (module_import r) => if Nat.eqb v vite then acc ++ [r] else acc
  | _ => acc
  end.

Definition since_reload (vite : ViteDevServer) (tr : list Event)
    : list ModuleImportResult :=
  fold_left (since_reload_step vite) tr [].

(** The set of each server holds, in insertion order, what was sent on
    the server since the last [rsc-reload]. *)
Definition registry_order (st : State) : Prop :=
  ∀ vite, since_reload vite (trace st) = default [] (modulePendingMap st !! vite).

(** Every server with a set in [m] has one in [m']. *)
Definition sets_kept (m m' : gmap nat (list ModuleImportResult)) : Prop :=
  ∀ vite, is_Some (m !! vite) → is_Some (m' !! vite).

(** How many calls of [moduleImport] are suspended on [vite]. *)
Definition waiting_on (st : State) (vite : ViteDevServer) : nat :=
  List.length (List.filter (λ w, Nat.eqb (fst w) vite) (suspended st)).

(** No set holds an object twice. *)
Definition registry_nodup (st : State) : Prop :=
  ∀ vite sourceSet,
    modulePendingMap st !! vite = Some sourceSet → NoDup (List.map ref sourceSet).

(** The tag [generateInitialScripts] makes for one result. *)
Definition artifactTag (result : ModuleImportResult) : HtmlTagDescriptor :=
  if isCssModule result then cssModuleScript result else styleTag result.

(** The text the [transform] hook inserts after the marker in the module
    [id]. *)
Definition expected_injection (wakuClientDist wakuRouterClientDist id : string)
    : option string :=
  if JsString.startsWith id wakuClientDist then Some fetchRSC_injection
  else if JsString.startsWith id wakuRouterClientDist then Some innerRouter_injection
  else None.

(** ** The command line entry point *)

(** The values [parseArgs] returns for the boolean options the program
    reads; an option that was not given is [undefined] ([None]). *)
Record ParsedValues := mkValues {
  with_ssr : option bool;
  with_vercel : option bool;
  with_vercel_static : option bool;
  with_cloudflare : option bool;
  with_deno : option bool;
  with_netlify : option bool;
  with_netlify_static : option bool;
  with_aws_lambda : option bool;
  version : option bool;
  help : option bool
}.

Module Js.

(** Truthiness of a [boolean | undefined]. *)
Definition truthy (b : option bool) : bool :=
  match b with Some true => true | _ => false end.

(** Truthiness of a [string | undefined]: the empty string is falsy. *)
Definition truthy_string (s : option string) : bool :=
  match s with
  | Some s => negb (String.eqb s "")
  | None => false
  end.

(** [a ?? b] *)
Definition nullish (a : option bool) (b : bool) : bool :=
  match a with Some x => x | None => b end.

(** [a || b] on [string | undefined]. *)
Definition or_else (a b : option string) : option string :=
  if truthy_string a then a else b.

(** [s.slice(0, -n)] for [n >= 0]: the end index [-n] counts from the end
    of [s] when [n > 0]; [-0] is [0], the start of [s]. *)
Definition slice_0_neg (s : string) (n : nat) : string :=
  if Nat.eqb n 0 then "" else String.substring 0 (String.length s - n) s.

End Js.

(** What the top-level code of the entry point does (source lines
    67-95 of the command line file), as the list of its effects. *)
Inductive CliEffect :=
| PrintVersion
| DisplayUsage
| ErrorUnknownCommand (cmd : string)
| RunDev (ssr : bool)
| RunBuild (ssr : bool)
| RunStart (ssr : bool).

Definition cli_main (values : ParsedValues) (positionals : list string)
    : list CliEffect :=
  let cmd := List.hd_error positionals in
  if Js.truthy (version values) then [PrintVersion]
  else if Js.truthy (help values) then [DisplayUsage]
  else
    let ssr := Js.truthy (with_ssr values) in
    match cmd with
    | Some c =>
        if String.eqb c "dev" then [RunDev ssr]
        else if String.eqb c "build" then [RunBuild ssr]
        else if String.eqb c "start" then [RunStart ssr]
        else (if Js.truthy_string cmd then [ErrorUnknownCommand c] else [])
               ++ [DisplayUsage]
    | None => [DisplayUsage]
    end.

Definition runs_command (e : CliEffect) : bool :=
  match e with
  | RunDev _ | RunBuild _ | RunStart _ => true
  | _ => false
  end.

(** The [deploy] option [runBuild] passes to [build] (lines 127-140);
    [VERCEL] and [NETLIFY] are the two variables read from
    [process.env]. *)
Definition deploy (values : ParsedValues) (VERCEL NETLIFY : option string)
    : option string :=
  Js.or_else
    (if Js.nullish (with_vercel values) (Js.truthy_string VERCEL)
     then (if Js.truthy (with_vercel_static values)
           then Some "vercel-static" else Some "vercel-serverless")
     else None)
  (Js.or_else
    (if Js.truthy (with_cloudflare values) then Some "cloudflare" else None)
  (Js.or_else
    (if Js.truthy (with_deno values) then Some "deno" else None)
  (Js.or_else
    (if Js.nullish (with_netlify values) (Js.truthy_string NETLIFY)
     then (if Js.truthy (with_netlify_static values)
           then Some "netlify-static" else Some "netlify-functions")
     else None)
    (if Js.truthy (with_aws_lambda values) then Some "aws-lambda" else None)))).

(** [startServer] (lines 175-187).  [serve] comes from
    [@hono/node-server] and listens through Node's [net.Server].  A port
    above [max_port] is refused before anything else: [serve] throws a
    [RangeError], no listener is registered and nothing is logged; the
    promise of the [async] function is rejected.  For a port in range
    what happens to the server is given by [listen]: the server listens,
    or emits an [error] event with the [code] and [message] of the
    error, or [serve] throws. *)
Inductive ListenOutcome :=
| Listening
| ErrorEvent (code : option string) (message : string)
| Throws.

Definition max_port : N := 65535.

Definition serve (listen : N → ListenOutcome) (port : N) : ListenOutcome :=
  if (max_port <? port)%N then Throws else listen port.

(** What a run of [startServer] does, in order: the lines it writes to
    the console and, when [serve] throws, the rejection of the promise
    of the call for that port. *)
Inductive StartEvent :=
| Ready (port : N)
| WarnInUse (port next : N)
| Failed (message : string)
| Rejected (port : N).

(** [fuel] bounds the number of calls of [startServer]; as each call
    goes one port up and [serve] throws above [max_port], the calls
    from [port] on are at most [max_port + 2 - port]. *)
Fixpoint startServer (listen : N → ListenOutcome) (fuel : nat) (port : N)
    : list StartEvent :=
  match fuel with
  | 0 => []
  | S fuel' =>
      match serve listen port with
      | Listening => [Ready port]
      | ErrorEvent code message =>
          match code with
          | Some c =>
              if String.eqb c "EADDRINUSE"
              then WarnInUse port (port + 1)
                     :: startServer listen fuel' (port + 1)
              else [Failed message]
          | None => [Failed message]
          end
      | Throws => [Rejected port]
      end
  end.

(** [loadApi] (lines 214-230).  [apiJs] is the field of the resolved
    configuration; [extname] comes from [./lib/utils/path.js],
    [path.resolve] and [existsSync] from Node: the three are parameters.
    The result says which file is loaded and how. *)
Inductive ApiEnv := dev | prd.

Inductive ApiSource :=
| ImportJs (path : string)
| TranspileTs (path : string).

Definition apiJsPath (extname : string → string)
    (path_resolve : string → string → string) (env : ApiEnv) (apiJs : string)
    : string :=
  match env with
  | prd =>
      path_resolve "dist"
        (Js.slice_0_neg apiJs (String.length (extname apiJs)) +:+ ".js")
  | dev => path_resolve "src" apiJs
  end.

Definition loadApi (extname : string → string)
    (path_resolve : string → string → string) (existsSync : string → bool)
    (apiJs : option string) (env : ApiEnv) : option ApiSource :=
  if negb (Js.truthy_string apiJs) then None
  else
    match apiJs with
    | None => None
    | Some a =>
        let p := apiJsPath extname path_resolve env a in
        if negb (existsSync p) then None
        else if JsString.endsWith p ".js" then Some (ImportJs p)
        else Some (TranspileTs p)
    end.

(** The action is a connection event of [vite]. *)
Definition connects_to (vite : ViteDevServer) (a : Action) : bool :=
  match a with
  | Connect v _ => Nat.eqb v vite
  | HotUpdate _ _ => false
  end.

(** The action is neither a [module-import] on [vite] nor a connection
    event of [vite]. *)
Definition leaves_alone (vite : ViteDevServer) (a : Action) : bool :=
  match a with
  | HotUpdate v (module_import _) => negb (Nat.eqb v vite)
  | HotUpdate _ _ => true
  | Connect v _ => negb (Nat.eqb v vite)
  end.

(** The call for [A] is the one suspended on [vite], and the set of
    [vite] is empty. *)
Definition waits_alone (st : State) (vite : ViteDevServer) (A : ModuleImportResult)
    : Prop :=
  modulePendingMap st !! vite = Some []
  ∧ List.filter (λ w, Nat.eqb (fst w) vite) (suspended st) = [(vite, A)].

(** * Properties *)

(** ** Strings and the [transform] hook *)

Section Strings.

Import JsString.

Lemma substring_includes (m : nat) :
  ∀ s p, String.substring m (String.length p) s = p → includes s p = true.
Proof.
  induction m as [|m IH]; intros s p H.
  - apply String.prefix_correct in H.
    destruct s; cbn [includes]; rewrite H; reflexivity.
  - destruct s as [|c s]; simpl in H.
    + subst p. reflexivity.
    + cbn [includes]. rewrite (IH _ _ H). apply orb_true_r.
Qed.

Lemma includes_false_index (s p : string) :
  includes s p = false → String.index 0 p s = None.
Proof.
  intros H. destruct (String.index 0 p s) as [m|] eqn:E; [|reflexivity].
  apply String.index_correct1 in E.
  apply substring_includes in E. congruence.
Qed.

Lemma replace_absent (s pattern replacement : string) :
  includes s pattern = false → replace s pattern replacement = s.
Proof.
  intros H. unfold replace. rewrite (includes_false_index _ _ H). reflexivity.
Qed.

(** The two replacement texts hold no [$], so that
    [String.prototype.replace] inserts them as they are. *)
Lemma replacements_have_no_dollar :
  includes (FETCH_RSC_LINE +:+ fetchRSC_injection) "$" = false ∧
  includes (INNER_ROUTER_LINE +:+ innerRouter_injection) "$" = false.
Proof. split; vm_compute; reflexivity. Qed.

End Strings.

Example endsWith_module_css :
  JsString.endsWith "src/a.module.css" ".module.css" = true ∧
  JsString.endsWith "src/a.css" ".module.css" = false ∧
  JsString.endsWith "css" ".module.css" = false.
Proof. repeat split; reflexivity. Qed.

Example replace_first_only :
  JsString.replace "a-b-c" "-" "+" = "a+b-c" ∧
  JsString.replace "abc" "-" "+" = "abc".
Proof. split; reflexivity. Qed.

(** C9.  For a module the hook targets (its [id] starts with one of the
    two client paths), when the marker the hook looks for does not occur
    in [code], the hook returns [code] itself: a value, not an error, and
    the same string. *)
Theorem transform_marker_absent
    (wakuClientDist wakuRouterClientDist code id marker : string) :
  expected_marker wakuClientDist wakuRouterClientDist id = Some marker →
  JsString.includes code marker = false →
  transform wakuClientDist wakuRouterClientDist code id = Some code.
Proof.
  unfold expected_marker, transform.
  destruct (JsString.startsWith id wakuClientDist).
  - intros [= <-] H. rewrite replace_absent; auto.
  - destruct (JsString.startsWith id wakuRouterClientDist); [|discriminate].
    intros [= <-] H. rewrite replace_absent; auto.
Qed.

Lemma transform_marker_absent_witness :
  transform "/waku/dist/client.js" "/waku/dist/router/client.js"
            "export const x = 1;" "/waku/dist/router/client.js"
  = Some "export const x = 1;".
Proof.
  apply (transform_marker_absent _ _ _ _ INNER_ROUTER_LINE); reflexivity.
Defined.

(** ** The tags of [generateInitialScripts] *)

Section Planner.

Lemma styleTag_not_blocking r : styleTag r ≠ blockingViteClient.
Proof. discriminate. Qed.

Lemma cssModuleScript_not_blocking r : cssModuleScript r ≠ blockingViteClient.
Proof. discriminate. Qed.

(** Once the flag is set the loop pushes no blocking tag. *)
Lemma loop_injected_no_blocking sourceSet :
  blocking_count (initialScripts_loop sourceSet true) = 0.
Proof.
  unfold blocking_count.
  induction sourceSet as [|r rest IH]; simpl; [reflexivity|].
  destruct (isCssModule r); simpl.
  - destruct (HtmlTagDescriptor_eq_dec (cssModuleScript r) blockingViteClient)
      as [E|_]; [discriminate E | exact IH].
  - destruct (HtmlTagDescriptor_eq_dec (styleTag r) blockingViteClient)
      as [E|_]; [discriminate E | exact IH].
Qed.

(** With the flag unset it pushes one when, and only when, the set
    holds a css module. *)
Lemma loop_blocking_count sourceSet :
  blocking_count (initialScripts_loop sourceSet false)
  = if existsb isCssModule sourceSet then 1 else 0.
Proof.
  induction sourceSet as [|r rest IH]; simpl; [reflexivity|].
  destruct (isCssModule r) eqn:E; simpl.
  - unfold blocking_count. cbn [app count_occ].
    destruct (HtmlTagDescriptor_eq_dec blockingViteClient blockingViteClient)
      as [_|N]; [|contradiction].
    destruct (HtmlTagDescriptor_eq_dec (cssModuleScript r) blockingViteClient)
      as [E'|_]; [discriminate E'|].
    f_equal. apply loop_injected_no_blocking.
  - unfold blocking_count in *. cbn [count_occ].
    destruct (HtmlTagDescriptor_eq_dec (styleTag r) blockingViteClient)
      as [E'|_]; [discriminate E' | exact IH].
Qed.

(** The results registered before the first css module become style
    tags; the blocking tag comes next, right before the script of that
    css module. *)
Lemma loop_first_css_module pre r post :
  forallb (λ x, negb (isCssModule x)) pre = true →
  isCssModule r = true →
  initialScripts_loop (pre ++ r :: post) false
  = List.map styleTag pre
      ++ blockingViteClient :: cssModuleScript r :: initialScripts_loop post true.
Proof.
  intros Hpre Hr. induction pre as [|x pre IH]; simpl in *.
  - rewrite Hr. reflexivity.
  - apply andb_true_iff in Hpre as [Hx Hpre].
    apply negb_true_iff in Hx. rewrite Hx. f_equal. auto.
Qed.

(** No tag of the loop has an attribute that the selector
    [[waku-module-id]] matches. *)
Lemma loop_no_waku_attribute sourceSet injected :
  forallb (λ el, negb (matches_attribute_selector WAKU_ATTR_NAME el))
          (initialScripts_loop sourceSet injected) = true.
Proof.
  revert injected.
  induction sourceSet as [|r rest IH]; intros injected; simpl; [reflexivity|].
  destruct (isCssModule r).
  - destruct injected; simpl; rewrite IH; reflexivity.
  - simpl. rewrite IH. reflexivity.
Qed.

Lemma filter_all {A} (f : A → bool) (l : list A) :
  forallb f l = true → List.filter f l = l.
Proof.
  induction l as [|x l IH]; simpl; [reflexivity|].
  intros H. apply andb_true_iff in H as [Hx Hl]. rewrite Hx, IH; auto.
Qed.

Lemma filter_none {A} (f : A → bool) (l : list A) :
  forallb (λ x, negb (f x)) l = true → List.filter f l = [].
Proof.
  induction l as [|x l IH]; simpl; [reflexivity|].
  intros H. apply andb_true_iff in H as [Hx Hl].
  apply negb_true_iff in Hx. rewrite Hx. auto.
Qed.

End Planner.



(** C6, what the code does.  The tags of [generateInitialScripts] carry
    the id of their result under the attribute name [WAKU_ATTR_NAME], the
    text of the identifier, and have no attribute [waku-module-id], the
    value of the constant: the selector of the [rsc-reload] handler
    matches none of them and the handler leaves every one in the
    document. *)
Theorem planner_tags_survive_rsc_reload (viteServer : option ViteDevServer)
    (st : State) :
  wakuTags (generateInitialScripts viteServer st) = []
  ∧ rsc_reload_handler (generateInitialScripts viteServer st)
    = generateInitialScripts viteServer st
  ∧ (∀ r, getAttribute "WAKU_ATTR_NAME" (cssModuleScript r) = Some (id r)
          ∧ getAttribute "WAKU_ATTR_NAME" (styleTag r) = Some (id r)
          ∧ getAttribute WAKU_ATTR_NAME (cssModuleScript r) = None
          ∧ getAttribute WAKU_ATTR_NAME (styleTag r) = None).
Proof.
  assert (H : forallb (λ el, negb (matches_attribute_selector WAKU_ATTR_NAME el))
                      (generateInitialScripts viteServer st) = true).
  { unfold generateInitialScripts. destruct viteServer as [vite|]; [|reflexivity].
    destruct (modulePendingMap st !! vite); [|reflexivity].
    apply loop_no_waku_attribute. }
  split; [|split].
  - apply filter_none, H.
  - apply filter_all, H.
  - intros r. repeat split; reflexivity.
Qed.

(** C8, what the code does.  [hotUpdate] has no branch for a
    [hot-import] payload: nothing is handed to [vite.hot.send], and the
    state is the one before the call. *)
Theorem hot_import_is_dropped (vite : ViteDevServer) (path : string) (st : State) :
  hotUpdate vite (hot_import path) st = st
  ∧ trace (hotUpdate vite (hot_import path) st) = trace st
  ∧ modulePendingMap (hotUpdate vite (hot_import path) st) = modulePendingMap st
  ∧ trace (hotUpdate vite full_reload st) = trace st ++ [Sent vite full_reload].
Proof. repeat split; reflexivity. Qed.

(** ** Sets compared by reference *)

Section Sets.

Import JsSet.

Lemma sameValueZero_refl x : sameValueZero x x = true.
Proof. apply Nat.eqb_refl. Qed.

Lemma has_sameValueZero s x y :
  sameValueZero x y = true → has s x = has s y.
Proof.
  unfold has, sameValueZero. intros H. apply Nat.eqb_eq in H.
  rewrite H. reflexivity.
Qed.

Lemma has_app s x y : has (s ++ [y]) x = has s x || sameValueZero x y.
Proof. unfold has. rewrite existsb_app. simpl. rewrite orb_false_r. reflexivity. Qed.

Lemma occurrences_app s t x :
  occurrences (s ++ t) x = occurrences s x + occurrences t x.
Proof. unfold occurrences. rewrite List.filter_app, length_app. reflexivity. Qed.

Lemma occurrences_single x y :
  occurrences [y] x = if sameValueZero x y then 1 else 0.
Proof. unfold occurrences. simpl. destruct (sameValueZero x y); reflexivity. Qed.

Lemma has_false_occurrences s x : has s x = false → occurrences s x = 0.
Proof.
  unfold has, occurrences. induction s as [|z s IH]; simpl; [reflexivity|].
  intros H. apply orb_false_iff in H as [Hz Hs]. rewrite Hz. auto.
Qed.

Lemma add_fresh s x : has s x = false → add s x = s ++ [x].
Proof. unfold add. intros ->. reflexivity. Qed.

End Sets.

(** ** Reading the trace *)

Section Traces.

Lemma module_imports_app vite t1 t2 :
  module_imports vite (t1 ++ t2) = module_imports vite t1 ++ module_imports vite t2.
Proof.
  induction t1 as [|e t1 IH]; simpl; [reflexivity|].
  destruct e as [v c|v [| |d|r]]; try exact IH.
  destruct (Nat.eqb v vite); simpl; rewrite IH; reflexivity.
Qed.

Lemma transported_snoc tr vite e r :
  transported (tr ++ [e]) vite r
  = transported tr vite r + JsSet.occurrences (module_imports vite [e]) r.
Proof. unfold transported. rewrite module_imports_app. apply occurrences_app. Qed.

Lemma transported_connection tr vite v c r :
  transported (tr ++ [Connection v c]) vite r = transported tr vite r.
Proof. rewrite transported_snoc. unfold JsSet.occurrences. simpl. lia. Qed.

Lemma transported_module_import tr vite v x r :
  transported (tr ++ [Sent v (module_import x)]) vite r
  = transported tr vite r
    + (if Nat.eqb v vite && JsSet.sameValueZero r x then 1 else 0).
Proof.
  rewrite transported_snoc. simpl.
  destruct (Nat.eqb v vite); cbn [andb]; [|reflexivity].
  rewrite occurrences_single. reflexivity.
Qed.

End Traces.

(** ** [moduleImport], case by case *)

Section ModuleImport.

Lemma moduleImport_resume_recorded vite r st :
  recorded st vite r = true → moduleImport_resume vite r st = st.
Proof.
  unfold recorded, moduleImport_resume.
  destruct (modulePendingMap st !! vite); [|discriminate]. intros ->. reflexivity.
Qed.

Lemma moduleImport_resume_fresh vite r st sourceSet :
  modulePendingMap st !! vite = Some sourceSet →
  JsSet.has sourceSet r = false →
  moduleImport_resume vite r st
  = mkState (<[vite := sourceSet ++ [r]]> (modulePendingMap st)) (suspended st)
            (trace st ++ [Sent vite (module_import r)]).
Proof.
  intros Hm Hh. unfold moduleImport_resume. rewrite Hm, Hh.
  rewrite (add_fresh _ _ Hh). reflexivity.
Qed.

Lemma moduleImport_recorded vite r st :
  recorded st vite r = true → moduleImport vite r st = st.
Proof.
  intros H. unfold moduleImport.
  destruct (modulePendingMap st !! vite) eqn:E.
  - apply moduleImport_resume_recorded, H.
  - unfold recorded in H. rewrite E in H. discriminate.
Qed.

Lemma moduleImport_no_set vite r st :
  modulePendingMap st !! vite = None →
  moduleImport vite r st
  = mkState (<[vite := []]> (modulePendingMap st))
            (suspended st ++ [(vite, r)]) (trace st).
Proof. intros H. unfold moduleImport. rewrite H. reflexivity. Qed.

Lemma moduleImport_fresh vite r st sourceSet :
  modulePendingMap st !! vite = Some sourceSet →
  JsSet.has sourceSet r = false →
  moduleImport vite r st
  = mkState (<[vite := sourceSet ++ [r]]> (modulePendingMap st)) (suspended st)
            (trace st ++ [Sent vite (module_import r)]).
Proof.
  intros Hm Hh. unfold moduleImport. rewrite Hm.
  apply moduleImport_resume_fresh; assumption.
Qed.

(** Going on with any call, of any server, leaves a recorded result as
    it is: not one more record of it, not one more event for it. *)
Lemma moduleImport_resume_delivered st vite r n k v x :
  delivered st vite r n k → delivered (moduleImport_resume v x st) vite r n k.
Proof.
  intros (Hrec & Hn & Hk).
  unfold moduleImport_resume.
  destruct (modulePendingMap st !! v) as [s|] eqn:Hs; [|repeat split; assumption].
  destruct (JsSet.has s x) eqn:Hx; [repeat split; assumption|].
  rewrite (add_fresh _ _ Hx).
  unfold delivered, recorded, records in *. cbn [hot_send modulePendingMap trace].
  rewrite transported_module_import.
  destruct (Nat.eqb_spec v vite) as [->|Hne].
  - rewrite lookup_insert_eq. rewrite Hs in Hrec, Hn.
    assert (Hrx : JsSet.sameValueZero r x = false).
    { destruct (JsSet.sameValueZero r x) eqn:E; [|reflexivity].
      rewrite (has_sameValueZero _ _ _ E) in Hrec. congruence. }
    rewrite has_app, Hrec, occurrences_app, occurrences_single, Hrx. simpl.
    repeat split; lia.
  - rewrite lookup_insert_ne by assumption. simpl. repeat split; try assumption; lia.
Qed.

Lemma resume_all_delivered waiting st vite r n k :
  delivered st vite r n k →
  delivered (fold_left (λ acc w, moduleImport_resume (fst w) (snd w) acc) waiting st)
            vite r n k.
Proof.
  revert st. induction waiting as [|w waiting IH]; intros st H; simpl; [exact H|].
  apply IH, moduleImport_resume_delivered, H.
Qed.

Lemma connection_delivered st vite r n k v c :
  delivered st vite r n k → delivered (connection v c st) vite r n k.
Proof.
  intros (Hrec & Hn & Hk). unfold connection. apply resume_all_delivered.
  unfold delivered, recorded, records in *. cbn [modulePendingMap trace].
  rewrite transported_connection. repeat split; assumption.
Qed.

Lemma connections_delivered (conns : list (ViteDevServer * Client)) st vite r n k :
  delivered st vite r n k →
  delivered (run (List.map (λ vc, Connect (fst vc) (snd vc)) conns) st) vite r n k.
Proof.
  revert st. induction conns as [|[v c] conns IH]; intros st H; simpl; [exact H|].
  apply IH. simpl. apply connection_delivered, H.
Qed.

End ModuleImport.

(** ** Delivery *)

(** Two calls in a row for a result that is not recorded leave it
    recorded once and sent once more than before. *)
Lemma moduleImport_twice st vite A :
  recorded st vite A = false →
  delivered (moduleImport vite A (moduleImport vite A st)) vite A 1
            (transported (trace st) vite A + 1).
Proof.
  intros Hrec. unfold recorded in Hrec.
  destruct (modulePendingMap st !! vite) as [s|] eqn:Hs.
  - (* the set is there: the first call records and sends *)
    rewrite (moduleImport_fresh _ _ _ _ Hs Hrec).
    assert (D : delivered
                  (mkState (<[vite := s ++ [A]]> (modulePendingMap st)) (suspended st)
                           (trace st ++ [Sent vite (module_import A)]))
                  vite A 1 (transported (trace st) vite A + 1)).
    { unfold delivered, recorded, records. cbn [modulePendingMap trace].
      rewrite lookup_insert_eq, has_app, occurrences_app, occurrences_single,
        transported_module_import, sameValueZero_refl, Nat.eqb_refl,
        (has_false_occurrences _ _ Hrec), orb_true_r.
      repeat split. }
    rewrite moduleImport_recorded; [exact D | apply D].
  - (* no set yet: the first call waits, the second records and sends *)
    rewrite (moduleImport_no_set _ _ _ Hs).
    erewrite moduleImport_fresh;
      [| cbn [modulePendingMap]; apply lookup_insert_eq | reflexivity].
    unfold delivered, recorded, records. cbn [modulePendingMap trace].
    rewrite lookup_insert_eq, transported_module_import, sameValueZero_refl,
      Nat.eqb_refl.
    cbn [app]. rewrite occurrences_single. unfold JsSet.has. cbn [existsb].
    rewrite sameValueZero_refl. repeat split.
Qed.

(** C3, as the code has it.  Two calls of [moduleImport] with the same
    server and the same result, not recorded before, followed by any
    connection events: one more [module-import] event carrying the
    result was sent, the set of the server holds it once, and a further
    call changes nothing.  When the server has a set, the first call
    records and sends and the second call changes nothing.  When it has
    none, the first call creates the set and waits, the second call
    records and sends, and the first call, when it goes on, changes
    nothing. *)
Theorem deliver_twice_sends_once (st : State) (vite : ViteDevServer)
    (A : ModuleImportResult) (conns : list (ViteDevServer * Client)) :
  recorded st vite A = false →
  let st1 := moduleImport vite A st in
  let st2 := moduleImport vite A st1 in
  let st' := run (List.map (λ vc, Connect (fst vc) (snd vc)) conns) st2 in
  transported (trace st') vite A = transported (trace st) vite A + 1
  ∧ records st' vite A = 1
  ∧ recorded st' vite A = true
  ∧ moduleImport vite A st' = st'
  ∧ (is_Some (modulePendingMap st !! vite) →
       trace st1 = trace st ++ [Sent vite (module_import A)]
       ∧ st2 = st1)
  ∧ (modulePendingMap st !! vite = None →
       trace st1 = trace st
       ∧ suspended st1 = suspended st ++ [(vite, A)]
       ∧ trace st2 = trace st ++ [Sent vite (module_import A)]
       ∧ suspended st2 = suspended st1
       ∧ moduleImport_resume vite A st2 = st2).
Proof.
  intros Hrec st1 st2 st'.
  pose proof (moduleImport_twice _ _ _ Hrec) as Htwice. fold st1 st2 in Htwice.
  destruct (connections_delivered conns _ _ _ _ _ Htwice) as (H1 & H2 & H3).
  fold st' in H1, H2, H3.
  split; [exact H3|]. split; [exact H2|]. split; [exact H1|].
  split; [apply moduleImport_recorded, H1|]. split.
  - intros [s Hs]. unfold recorded in Hrec. rewrite Hs in Hrec.
    assert (E1 : st1 = mkState (<[vite := s ++ [A]]> (modulePendingMap st))
                         (suspended st)
                         (trace st ++ [Sent vite (module_import A)])).
    { apply moduleImport_fresh; assumption. }
    split; [rewrite E1; reflexivity|].
    unfold st2. apply moduleImport_recorded.
    rewrite E1. unfold recorded. cbn [modulePendingMap].
    rewrite lookup_insert_eq, has_app, sameValueZero_refl. apply orb_true_r.
  - intros Hnone.
    assert (E1 : st1 = mkState (<[vite := []]> (modulePendingMap st))
                         (suspended st ++ [(vite, A)]) (trace st)).
    { apply moduleImport_no_set, Hnone. }
    assert (E2 : st2 = mkState (<[vite := [] ++ [A]]> (modulePendingMap st1))
                         (suspended st1)
                         (trace st1 ++ [Sent vite (module_import A)])).
    { apply moduleImport_fresh; [|reflexivity].
      rewrite E1. cbn [modulePendingMap]. apply lookup_insert_eq. }
    split; [rewrite E1; reflexivity|]. split; [rewrite E1; reflexivity|].
    split; [rewrite E2, E1; reflexivity|]. split; [rewrite E2; reflexivity|].
    apply moduleImport_resume_recorded, Htwice.
Qed.

Lemma deliver_twice_sends_once_witness :
  let A := mkResult 1 "export {}" "src/m.tsx" "export {}" None in
  let st' := run [Connect 0 7]
                 (moduleImport 0 A (moduleImport 0 A init)) in
  transported (trace st') 0 A = 1 ∧ records st' 0 A = 1.
Proof.
  intros A st'.
  destruct (deliver_twice_sends_once init 0 A [(0, 7)]) as (H1 & H2 & _);
    [reflexivity|].
  split; [exact H1 | exact H2].
Defined.

(** C3 as stated fails: when the first call is the one that creates the
    set, it sends nothing and waits, and the second call is the one that
    sends; the first call then changes nothing when the connection
    event comes. *)
Lemma second_call_is_not_a_no_op :
  let A := mkResult 1 "export {}" "src/m.tsx" "export {}" None in
  let st1 := hotUpdate 0 (module_import A) init in
  let st2 := hotUpdate 0 (module_import A) st1 in
  trace st1 = []
  ∧ trace st2 = [Sent 0 (module_import A)]
  ∧ modulePendingMap st1 !! 0 = Some []
  ∧ modulePendingMap st2 !! 0 = Some [A]
  ∧ st2 ≠ st1
  ∧ trace (connection 0 7 st2) = [Sent 0 (module_import A); Connection 0 7].
Proof.
  intros A st1 st2. repeat split; try reflexivity.
  intros H. apply (f_equal trace) in H. discriminate H.
Qed.

(** [rsc-reload] on a server that has a set leaves the set empty. *)
Lemma rsc_reload_empties_set st vite :
  is_Some (modulePendingMap st !! vite) →
  modulePendingMap (hotUpdate vite rsc_reload st) !! vite = Some [].
Proof.
  intros [s Hs]. unfold hotUpdate, optional_clear. cbn [hot_send modulePendingMap].
  rewrite Hs. apply lookup_insert_eq.
Qed.

Lemma recorded_has_set st vite r :
  recorded st vite r = true → is_Some (modulePendingMap st !! vite).
Proof.
  unfold recorded. destruct (modulePendingMap st !! vite); [eauto | discriminate].
Qed.

(** The clear is that of the server the event is sent on: the sets of
    the other servers are as before. *)
Lemma hotUpdate_other_server st vite vite' payload :
  vite' ≠ vite →
  modulePendingMap (hotUpdate vite' payload st) !! vite = modulePendingMap st !! vite.
Proof.
  intros Hne. destruct payload as [| |d|r]; cbn [hotUpdate hot_send modulePendingMap].
  - reflexivity.
  - unfold optional_clear. destruct (modulePendingMap st !! vite'); [|reflexivity].
    apply lookup_insert_ne, Hne.
  - reflexivity.
  - unfold moduleImport, moduleImport_resume.
    destruct (modulePendingMap st !! vite') as [s|]; cbn [modulePendingMap].
    + destruct (JsSet.has s r); [reflexivity|]. cbn [hot_send modulePendingMap].
      apply lookup_insert_ne, Hne.
    + apply lookup_insert_ne, Hne.
Qed.

(** C4, as the code has it.  [hotUpdate] with [rsc-reload] empties the
    set of the server the event is sent on, as it sends the event: no
    result is recorded for that server any more, and a call of
    [moduleImport] on it for any result, one delivered before included,
    sends a new [module-import] event and records the result again.
    What is recorded for the other servers is as before. *)
Theorem rsc_reload_clears (st : State) (vite : ViteDevServer)
    (A : ModuleImportResult) :
  recorded st vite A = true →
  let st1 := hotUpdate vite rsc_reload st in
  trace st1 = trace st ++ [Sent vite rsc_reload]
  ∧ modulePendingMap st1 !! vite = Some []
  ∧ (∀ r, recorded st1 vite r = false)
  ∧ (∀ r, trace (hotUpdate vite (module_import r) st1)
          = trace st1 ++ [Sent vite (module_import r)]
          ∧ recorded (hotUpdate vite (module_import r) st1) vite r = true)
  ∧ (∀ v r, v ≠ vite → recorded st1 v r = recorded st v r).
Proof.
  intros Hrec st1.
  assert (Hm : modulePendingMap st1 !! vite = Some []).
  { apply rsc_reload_empties_set, (recorded_has_set _ _ _ Hrec). }
  split; [reflexivity|]. split; [exact Hm|]. split; [|split].
  - intros r. unfold recorded. rewrite Hm. reflexivity.
  - intros r. cbn [hotUpdate].
    rewrite (moduleImport_fresh _ _ _ _ Hm eq_refl).
    split; [reflexivity|].
    unfold recorded. cbn [modulePendingMap].
    rewrite lookup_insert_eq. simpl. unfold JsSet.has. simpl.
    rewrite sameValueZero_refl. reflexivity.
  - intros v r Hne. unfold recorded, st1.
    rewrite (hotUpdate_other_server st v vite rsc_reload (not_eq_sym Hne)).
    reflexivity.
Qed.

Lemma rsc_reload_clears_witness :
  let A := mkResult 1 "export {}" "src/m.tsx" "export {}" None in
  let st := run [HotUpdate 0 (module_import A); Connect 0 7] init in
  recorded (hotUpdate 0 rsc_reload st) 0 A = false
  ∧ trace (hotUpdate 0 (module_import A) (hotUpdate 0 rsc_reload st))
    = [Connection 0 7; Sent 0 (module_import A); Sent 0 rsc_reload;
       Sent 0 (module_import A)].
Proof.
  intros A st.
  destruct (rsc_reload_clears st 0 A) as (H1 & _ & H3 & H4 & _); [reflexivity|].
  split; [apply H3|]. destruct (H4 A) as [H5 _]. rewrite H5, H1. reflexivity.
Defined.

(** C4 as stated fails for the connections of another server: [A] was
    delivered on the servers [0] and [1]; after [rsc-reload] is sent on
    [0], [A] is still recorded for [1] and a call for it there sends
    nothing. *)
Lemma rsc_reload_spares_other_server :
  let A := mkResult 1 "export {}" "src/m.tsx" "export {}" None in
  let st := run [HotUpdate 0 (module_import A); Connect 0 7;
                 HotUpdate 1 (module_import A); Connect 1 8] init in
  let st1 := hotUpdate 0 rsc_reload st in
  recorded st 0 A = true
  ∧ recorded st 1 A = true
  ∧ recorded st1 0 A = false
  ∧ recorded st1 1 A = true
  ∧ hotUpdate 1 (module_import A) st1 = st1.
Proof. intros A st st1. repeat split; reflexivity. Qed.

(** ** What holds in every state the module can reach *)

Section Invariants.

Lemma suspended_have_set_spec st :
  suspended_have_set st = true
  ↔ ∀ w, In w (suspended st) → is_Some (modulePendingMap st !! fst w).
Proof.
  unfold suspended_have_set. rewrite forallb_forall.
  split; intros H w Hw; specialize (H w Hw).
  - destruct (modulePendingMap st !! fst w); [eauto | discriminate].
  - destruct H as [s ->]. reflexivity.
Qed.

Lemma sets_kept_refl m : sets_kept m m.
Proof. intros v H. exact H. Qed.

Lemma sets_kept_trans m1 m2 m3 : sets_kept m1 m2 → sets_kept m2 m3 → sets_kept m1 m3.
Proof. intros H1 H2 v H. apply H2, H1, H. Qed.

Lemma sets_kept_insert m vite s : sets_kept m (<[vite := s]> m).
Proof.
  intros v H. destruct (decide (vite = v)) as [->|Hne].
  - rewrite lookup_insert_eq. eauto.
  - rewrite lookup_insert_ne by assumption. exact H.
Qed.

(** Going on with a call touches neither the list of suspended calls
    nor the existence of a set. *)
Lemma moduleImport_resume_suspended vite r st :
  suspended (moduleImport_resume vite r st) = suspended st.
Proof.
  unfold moduleImport_resume. destruct (modulePendingMap st !! vite) as [s|];
    [destruct (JsSet.has s r)|]; reflexivity.
Qed.

Lemma moduleImport_resume_sets_kept vite r st :
  sets_kept (modulePendingMap st) (modulePendingMap (moduleImport_resume vite r st)).
Proof.
  unfold moduleImport_resume. destruct (modulePendingMap st !! vite) as [s|];
    [destruct (JsSet.has s r)|]; try apply sets_kept_refl.
  apply sets_kept_insert.
Qed.

Lemma resume_all_suspended waiting st :
  suspended (fold_left (λ acc w, moduleImport_resume (fst w) (snd w) acc) waiting st)
  = suspended st.
Proof.
  revert st. induction waiting as [|w waiting IH]; intros st; simpl; [reflexivity|].
  rewrite IH. apply moduleImport_resume_suspended.
Qed.

Lemma resume_all_sets_kept waiting st :
  sets_kept (modulePendingMap st)
    (modulePendingMap
       (fold_left (λ acc w, moduleImport_resume (fst w) (snd w) acc) waiting st)).
Proof.
  revert st. induction waiting as [|w waiting IH]; intros st; simpl;
    [apply sets_kept_refl|].
  eapply sets_kept_trans; [apply moduleImport_resume_sets_kept | apply IH].
Qed.

Lemma connection_suspended vite client st :
  suspended (connection vite client st)
  = List.filter (λ w, negb (Nat.eqb (fst w) vite)) (suspended st).
Proof. unfold connection. rewrite resume_all_suspended. reflexivity. Qed.

Lemma step_suspended_have_set a st :
  suspended_have_set st = true → suspended_have_set (step a st) = true.
Proof.
  rewrite !suspended_have_set_spec. intros H.
  destruct a as [vite payload|vite client]; cbn [step].
  - destruct payload as [| |d|r]; cbn [hotUpdate hot_send suspended modulePendingMap].
    + exact H.
    + intros w Hw. unfold optional_clear.
      destruct (modulePendingMap st !! vite); [apply sets_kept_insert|]; auto.
    + exact H.
    + unfold moduleImport. destruct (modulePendingMap st !! vite) as [s|] eqn:Hs.
      * rewrite moduleImport_resume_suspended. intros w Hw.
        apply moduleImport_resume_sets_kept. auto.
      * cbn [suspended modulePendingMap]. intros w Hw.
        apply in_app_or in Hw as [Hw|[<-|[]]].
        -- apply sets_kept_insert. auto.
        -- cbn [fst]. rewrite lookup_insert_eq. eauto.
  - rewrite connection_suspended. intros w Hw.
    apply List.filter_In in Hw as [Hw _]. unfold connection.
    apply resume_all_sets_kept. cbn [modulePendingMap]. auto.
Qed.

Lemma run_snoc actions a st : run (actions ++ [a]) st = step a (run actions st).
Proof. unfold run. rewrite fold_left_app. reflexivity. Qed.

(** An induction principle for the reachable states. *)
Lemma reachable_ind (P : State → Prop) :
  P init → (∀ a st, reachable st → P st → P (step a st)) →
  ∀ st, reachable st → P st.
Proof.
  intros Hinit Hstep st [actions ->].
  induction actions as [|a actions IH] using rev_ind; [exact Hinit|].
  rewrite run_snoc. apply Hstep; [eexists; reflexivity | exact IH].
Qed.

Lemma reachable_suspended_have_set :
  ∀ st, reachable st → suspended_have_set st = true.
Proof.
  apply (reachable_ind (λ s, suspended_have_set s = true));
    [reflexivity|].
  intros a s _. apply step_suspended_have_set.
Qed.

Lemma since_reload_snoc vite tr e :
  since_reload vite (tr ++ [e]) = since_reload_step vite (since_reload vite tr) e.
Proof. unfold since_reload. rewrite fold_left_app. reflexivity. Qed.

Lemma moduleImport_resume_registry_order vite r st :
  registry_order st → registry_order (moduleImport_resume vite r st).
Proof.
  intros H. unfold moduleImport_resume.
  destruct (modulePendingMap st !! vite) as [s|] eqn:Hs; [|exact H].
  destruct (JsSet.has s r) eqn:Hr; [exact H|].
  rewrite (add_fresh _ _ Hr). intros v. cbn [hot_send trace modulePendingMap].
  rewrite since_reload_snoc. cbn [since_reload_step]. rewrite (H v).
  destruct (Nat.eqb_spec vite v) as [<-|Hne].
  - rewrite lookup_insert_eq, Hs. reflexivity.
  - rewrite lookup_insert_ne by assumption. reflexivity.
Qed.

Lemma resume_all_registry_order waiting st :
  registry_order st →
  registry_order
    (fold_left (λ acc w, moduleImport_resume (fst w) (snd w) acc) waiting st).
Proof.
  revert st. induction waiting as [|w waiting IH]; intros st H; simpl; [exact H|].
  apply IH, moduleImport_resume_registry_order, H.
Qed.

Lemma step_registry_order a st : registry_order st → registry_order (step a st).
Proof.
  intros H. destruct a as [vite payload|vite client]; cbn [step].
  - destruct payload as [| |d|r]; cbn [hotUpdate].
    + intros v. cbn [hot_send trace modulePendingMap].
      rewrite since_reload_snoc. apply H.
    + intros v. cbn [hot_send trace modulePendingMap].
      rewrite since_reload_snoc. cbn [since_reload_step]. unfold optional_clear.
      destruct (Nat.eqb_spec vite v) as [<-|Hne].
      * destruct (modulePendingMap st !! vite) as [s|] eqn:Hs.
        -- rewrite lookup_insert_eq. reflexivity.
        -- rewrite Hs. reflexivity.
      * destruct (modulePendingMap st !! vite) as [s|] eqn:Hs.
        -- rewrite lookup_insert_ne by assumption. apply H.
        -- apply H.
    + exact H.
    + unfold moduleImport. destruct (modulePendingMap st !! vite) as [s|] eqn:Hs.
      * apply moduleImport_resume_registry_order, H.
      * intros v. cbn [trace modulePendingMap]. rewrite (H v).
        destruct (decide (vite = v)) as [<-|Hne].
        -- rewrite lookup_insert_eq, Hs. reflexivity.
        -- rewrite lookup_insert_ne by assumption. reflexivity.
  - unfold connection. apply resume_all_registry_order.
    intros v. cbn [trace modulePendingMap]. rewrite since_reload_snoc. apply H.
Qed.

Lemma reachable_registry_order : ∀ st, reachable st → registry_order st.
Proof.
  apply (reachable_ind registry_order); [intros v; reflexivity|].
  intros a s _. apply step_registry_order.
Qed.

End Invariants.

(** ** The gate *)

Section Gate.

Lemma no_waiter_without_set st vite :
  suspended_have_set st = true →
  modulePendingMap st !! vite = None →
  List.filter (λ w, Nat.eqb (fst w) vite) (suspended st) = []
  ∧ List.filter (λ w, negb (Nat.eqb (fst w) vite)) (suspended st) = suspended st.
Proof.
  intros H Hnone. rewrite suspended_have_set_spec in H.
  assert (Hall : forallb (λ w, negb (Nat.eqb (fst w) vite)) (suspended st) = true).
  { apply forallb_forall. intros [v r] Hw. apply negb_true_iff, Nat.eqb_neq.
    specialize (H (v, r) Hw). cbn [fst] in *. intros E. subst v.
    destruct H as [s Hs]. congruence. }
  split; [apply filter_none | apply filter_all]; exact Hall.
Qed.

Lemma recorded_delivered st vite r :
  recorded st vite r = true →
  delivered st vite r (records st vite r) (transported (trace st) vite r).
Proof. intros H. repeat split. exact H. Qed.

Lemma moduleImport_resume_records vite r st :
  is_Some (modulePendingMap st !! vite) →
  recorded (moduleImport_resume vite r st) vite r = true.
Proof.
  intros [s Hs]. unfold moduleImport_resume. rewrite Hs.
  destruct (JsSet.has s r) eqn:Hr.
  - unfold recorded. rewrite Hs. exact Hr.
  - unfold recorded. cbn [hot_send modulePendingMap].
    rewrite lookup_insert_eq, (add_fresh _ _ Hr), has_app, sameValueZero_refl.
    apply orb_true_r.
Qed.

(** When the suspended calls go on, each one leaves its result
    recorded. *)
Lemma resume_all_records waiting : ∀ st v r,
  (∀ w, In w waiting → is_Some (modulePendingMap st !! fst w)) →
  In (v, r) waiting →
  recorded (fold_left (λ acc w, moduleImport_resume (fst w) (snd w) acc) waiting st)
           v r = true.
Proof.
  induction waiting as [|w waiting IH]; intros st v r Hsets Hin; [destruct Hin|].
  cbn [fold_left]. destruct Hin as [->|Hin].
  - cbn [fst snd].
    apply (resume_all_delivered waiting _ v r _ _
             (recorded_delivered _ _ _
                (moduleImport_resume_records v r st (Hsets (v, r) (or_introl eq_refl))))).
  - apply IH; [|exact Hin]. intros w' Hw'.
    apply moduleImport_resume_sets_kept, Hsets. right. exact Hw'.
Qed.

Lemma hotUpdate_keeps_suspended vite payload st w :
  In w (suspended st) → In w (suspended (hotUpdate vite payload st)).
Proof.
  intros Hw. destruct payload as [| |d|r]; cbn [hotUpdate hot_send suspended];
    try exact Hw.
  unfold moduleImport. destruct (modulePendingMap st !! vite).
  - rewrite moduleImport_resume_suspended. exact Hw.
  - cbn [suspended]. apply in_or_app. left. exact Hw.
Qed.

Lemma moduleImport_resume_no_new_set vite r st v :
  is_Some (modulePendingMap (moduleImport_resume vite r st) !! v) →
  is_Some (modulePendingMap st !! v).
Proof.
  unfold moduleImport_resume.
  destruct (modulePendingMap st !! vite) as [s|] eqn:Hs; [|auto].
  destruct (JsSet.has s r); [auto|]. cbn [hot_send modulePendingMap].
  destruct (decide (vite = v)) as [<-|Hne].
  - rewrite Hs. eauto.
  - rewrite lookup_insert_ne by assumption. auto.
Qed.

Lemma connection_no_new_set vite client st v :
  is_Some (modulePendingMap (connection vite client st) !! v) →
  is_Some (modulePendingMap st !! v).
Proof.
  unfold connection.
  generalize (List.filter (λ w, Nat.eqb (fst w) vite) (suspended st)).
  intros waiting.
  change (modulePendingMap st) with
    (modulePendingMap
       (mkState (modulePendingMap st)
          (List.filter (λ w, negb (Nat.eqb (fst w) vite)) (suspended st))
          (trace st ++ [Connection vite client]))) at 2.
  generalize (mkState (modulePendingMap st)
          (List.filter (λ w, negb (Nat.eqb (fst w) vite)) (suspended st))
          (trace st ++ [Connection vite client])).
  induction waiting as [|w waiting IH]; intros s H; [exact H|].
  cbn [fold_left] in H. apply IH in H.
  eapply moduleImport_resume_no_new_set, H.
Qed.

End Gate.

(** C1, as the code has it.  In a state with no set for the server, a
    call for [A1], a call for another object [A2], then a connection
    event: the first call waits and the second does not, so [A2] is sent
    at once and [A1] when the connection event comes.  Both are sent,
    once, in the order [A2], [A1], which is the insertion order of the
    set; in every reachable state the set holds what was sent since the
    last [rsc-reload], in the order of sending. *)
Theorem first_call_waits_second_goes_ahead (st : State) (vite : ViteDevServer)
    (client : Client) (A1 A2 : ModuleImportResult) :
  reachable st →
  modulePendingMap st !! vite = None →
  JsSet.sameValueZero A1 A2 = false →
  let st' := run [HotUpdate vite (module_import A1);
                  HotUpdate vite (module_import A2);
                  Connect vite client] st in
  trace st' = trace st ++ [Sent vite (module_import A2);
                           Connection vite client;
                           Sent vite (module_import A1)]
  ∧ modulePendingMap st' = <[vite := [A2; A1]]> (modulePendingMap st)
  ∧ suspended st' = suspended st
  ∧ since_reload vite (trace st') = [A2; A1]
  ∧ (∀ s v, reachable s →
        since_reload v (trace s) = default [] (modulePendingMap s !! v)).
Proof.
  intros Hreach Hnone Hdiff st'.
  pose proof (reachable_suspended_have_set _ Hreach) as Hsusp.
  destruct (no_waiter_without_set _ _ Hsusp Hnone) as [Hwoken Hothers].
  assert (Hst' : st' = mkState (<[vite := [A2; A1]]> (modulePendingMap st))
                         (suspended st)
                         (trace st ++ [Sent vite (module_import A2);
                                       Connection vite client;
                                       Sent vite (module_import A1)])).
  { unfold st', run. cbn [fold_left step hotUpdate].
    rewrite (moduleImport_no_set _ _ _ Hnone).
    erewrite moduleImport_fresh;
      [| cbn [modulePendingMap]; apply lookup_insert_eq | reflexivity].
    cbn [modulePendingMap suspended trace app]. rewrite insert_insert_eq.
    unfold connection. cbn [modulePendingMap suspended trace].
    rewrite !List.filter_app, Hwoken, Hothers. cbn [List.filter fst].
    rewrite Nat.eqb_refl. cbn [negb app fold_left fst snd].
    erewrite moduleImport_resume_fresh;
      [| cbn [modulePendingMap]; apply lookup_insert_eq
       | unfold JsSet.has; cbn [existsb]; rewrite Hdiff; reflexivity ].
    cbn [modulePendingMap suspended trace app].
    rewrite insert_insert_eq, app_nil_r, <- !app_assoc. reflexivity. }
  assert (Hreach' : reachable st').
  { destruct Hreach as [actions ->]. eexists (actions ++ _).
    unfold st', run. rewrite fold_left_app. reflexivity. }
  split; [rewrite Hst'; reflexivity|].
  split; [rewrite Hst'; reflexivity|].
  split; [rewrite Hst'; reflexivity|].
  split.
  - rewrite (reachable_registry_order _ Hreach' vite), Hst'.
    cbn [modulePendingMap]. rewrite lookup_insert_eq. reflexivity.
  - intros s v Hs. apply (reachable_registry_order _ Hs v).
Qed.

Lemma first_call_waits_second_goes_ahead_witness :
  let m1 := mkResult 1 "export {}" "m1" "export {}" None in
  let m2 := mkResult 2 "export {}" "m2" "export {}" None in
  trace (run [HotUpdate 0 (module_import m1); HotUpdate 0 (module_import m2);
              Connect 0 7] init)
  = [Sent 0 (module_import m2); Connection 0 7; Sent 0 (module_import m1)].
Proof.
  intros m1 m2.
  destruct (first_call_waits_second_goes_ahead init 0 7 m1 m2) as (H & _).
  - exists []. reflexivity.
  - reflexivity.
  - reflexivity.
  - exact H.
Defined.

(** C1 as stated fails: after [deliver m1], [deliver m2] and the first
    connection event, the events sent are [m2] then [m1], and [m2] was
    sent before the connection event: what follows the connection event
    is [m1] alone. *)
Lemma replay_is_not_fifo :
  let m1 := mkResult 1 "export {}" "m1" "export {}" None in
  let m2 := mkResult 2 "export {}" "m2" "export {}" None in
  let st := run [HotUpdate 0 (module_import m1); HotUpdate 0 (module_import m2);
                 Connect 0 7] init in
  module_imports 0 (trace st) = [m2; m1]
  ∧ module_imports 0 (trace st) ≠ [m1; m2]
  ∧ module_imports 0 <$> after_first_connection 0 (trace st) = Some [m1].
Proof.
  intros m1 m2 st. split; [reflexivity|]. split; [discriminate|reflexivity].
Qed.

Lemma run_suspended_have_set actions : ∀ st,
  suspended_have_set st = true → suspended_have_set (run actions st) = true.
Proof.
  induction actions as [|a actions IH]; intros st H; [exact H|].
  apply (IH (step a st)), step_suspended_have_set, H.
Qed.

(** A suspended call stays suspended as long as no connection event of
    its server comes. *)
Lemma run_keeps_suspended vite r actions : ∀ st,
  existsb (connects_to vite) actions = false →
  In (vite, r) (suspended st) → In (vite, r) (suspended (run actions st)).
Proof.
  induction actions as [|a actions IH]; intros st Hq Hin; [exact Hin|].
  cbn [existsb] in Hq. apply orb_false_iff in Hq as [Ha Hq].
  apply (IH (step a st) Hq).
  destruct a as [v payload|v c]; cbn [step].
  - apply hotUpdate_keeps_suspended, Hin.
  - rewrite connection_suspended. apply List.filter_In. split; [exact Hin|].
    cbn [connects_to] in Ha. cbn [fst]. rewrite Nat.eqb_sym, Ha. reflexivity.
Qed.

(** At the connection event every suspended call of the server goes on
    and leaves its result recorded. *)
Lemma connection_records_waiters st vite client r :
  suspended_have_set st = true →
  In (vite, r) (suspended st) →
  recorded (connection vite client st) vite r = true.
Proof.
  intros Hsusp Hr. unfold connection. apply resume_all_records.
  - intros w Hw. apply List.filter_In in Hw as [Hw _]. cbn [modulePendingMap].
    apply suspended_have_set_spec; assumption.
  - apply List.filter_In. split; [exact Hr|]. cbn [fst]. apply Nat.eqb_refl.
Qed.

(** C2, as the code has it.  A call of [moduleImport] waits exactly when
    the server has no set yet: it stores an empty set and sends nothing.
    It stays suspended through any calls of [hotUpdate] and any
    connection events of other servers, until the next connection event
    of its server; at that event no call of the server remains suspended
    and the result of each one is recorded.  A call that finds a set
    does not wait: it is not suspended, and it sends its event at once
    unless the result is recorded, whether a connection event was seen
    or not. *)
Theorem only_the_call_without_set_waits (st : State) (vite : ViteDevServer)
    (result : ModuleImportResult) (client : Client) (actions : list Action) :
  suspended_have_set st = true →
  existsb (connects_to vite) actions = false →
  (modulePendingMap st !! vite = None →
     let st1 := moduleImport vite result st in
     st1 = mkState (<[vite := []]> (modulePendingMap st))
                   (suspended st ++ [(vite, result)]) (trace st)
     ∧ In (vite, result) (suspended (run actions st1))
     ∧ recorded (connection vite client (run actions st1)) vite result = true)
  ∧ (∀ sourceSet, modulePendingMap st !! vite = Some sourceSet →
       suspended (moduleImport vite result st) = suspended st
       ∧ trace (moduleImport vite result st)
         = if JsSet.has sourceSet result then trace st
           else trace st ++ [Sent vite (module_import result)])
  ∧ (∀ r, In (vite, r) (suspended st) → In (vite, r) (suspended (run actions st)))
  ∧ List.filter (λ w, Nat.eqb (fst w) vite)
                (suspended (connection vite client (run actions st))) = []
  ∧ (∀ r, In (vite, r) (suspended st) →
          recorded (connection vite client (run actions st)) vite r = true).
Proof.
  intros Hsusp Hq. split; [|split; [|split; [|split]]].
  - intros Hnone st1.
    assert (E1 : st1 = mkState (<[vite := []]> (modulePendingMap st))
                         (suspended st ++ [(vite, result)]) (trace st)).
    { apply moduleImport_no_set, Hnone. }
    assert (Hin : In (vite, result) (suspended (run actions st1))).
    { apply run_keeps_suspended; [exact Hq|]. rewrite E1. cbn [suspended].
      apply in_or_app. right. left. reflexivity. }
    split; [exact E1|]. split; [exact Hin|].
    apply connection_records_waiters; [|exact Hin].
    apply run_suspended_have_set.
    apply (step_suspended_have_set (HotUpdate vite (module_import result)) st Hsusp).
  - intros sourceSet Hs. unfold moduleImport, moduleImport_resume. rewrite Hs.
    destruct (JsSet.has sourceSet result); split; reflexivity.
  - intros r. apply run_keeps_suspended, Hq.
  - rewrite connection_suspended. apply filter_none.
    apply forallb_forall. intros w Hw. apply List.filter_In in Hw as [_ Hw].
    exact Hw.
  - intros r Hr. apply connection_records_waiters.
    + apply run_suspended_have_set, Hsusp.
    + apply run_keeps_suspended; assumption.
Qed.

Lemma only_the_call_without_set_waits_witness :
  let m1 := mkResult 1 "export {}" "m1" "export {}" None in
  let m2 := mkResult 2 "export {}" "m2" "export {}" None in
  let actions := [HotUpdate 0 (module_import m2); HotUpdate 0 rsc_reload;
                  Connect 1 9] in
  let st1 := moduleImport 0 m1 init in
  In (0, m1) (suspended (run actions st1))
  ∧ recorded (connection 0 7 (run actions st1)) 0 m1 = true.
Proof.
  intros m1 m2 actions st1.
  destruct (only_the_call_without_set_waits init 0 m1 7 actions eq_refl eq_refl)
    as (H1 & _).
  destruct (H1 eq_refl) as (_ & H2 & H3). split; [exact H2 | exact H3].
Defined.

(** C2 as stated fails: with no connection event at all, the second call
    is not suspended and its [module-import] event is sent. *)
Lemma module_import_sent_without_connection :
  let m1 := mkResult 1 "export {}" "m1" "export {}" None in
  let m2 := mkResult 2 "export {}" "m2" "export {}" None in
  let st := run [HotUpdate 0 (module_import m1); HotUpdate 0 (module_import m2)] init in
  trace st = [Sent 0 (module_import m2)]
  ∧ suspended st = [(0, m1)]
  ∧ after_first_connection 0 (trace st) = None
  ∧ gated 0 (trace st) = false.
Proof. intros m1 m2 st. repeat split; reflexivity. Qed.

(** C7, as the code has it.  The set is searched for the object: once
    [A] is recorded, a call with that object changes nothing, and a call
    with an object that the set does not hold, its [id] being what it
    may, records the object and sends it. *)
Theorem dedup_is_by_object (st : State) (vite : ViteDevServer)
    (A A' : ModuleImportResult) :
  recorded st vite A = true →
  moduleImport vite A st = st
  ∧ (JsSet.sameValueZero A A' = true → moduleImport vite A' st = st)
  ∧ (recorded st vite A' = false →
       trace (moduleImport vite A' st) = trace st ++ [Sent vite (module_import A')]
       ∧ records (moduleImport vite A' st) vite A' = 1
       ∧ recorded (moduleImport vite A' st) vite A = true).
Proof.
  intros HA. split; [apply moduleImport_recorded, HA|]. split.
  - intros Hsame. apply moduleImport_recorded.
    unfold recorded in *. destruct (modulePendingMap st !! vite); [|discriminate].
    rewrite <- (has_sameValueZero _ _ _ Hsame). exact HA.
  - intros HA'. unfold recorded in HA, HA'.
    destruct (modulePendingMap st !! vite) as [s|] eqn:Hs; [|discriminate].
    rewrite (moduleImport_fresh _ _ _ _ Hs HA').
    unfold records, recorded. cbn [trace modulePendingMap].
    rewrite lookup_insert_eq, occurrences_app, occurrences_single,
      sameValueZero_refl, (has_false_occurrences _ _ HA'), has_app, HA.
    repeat split.
Qed.

Lemma dedup_is_by_object_witness :
  let A := mkResult 1 "v1" "src/m.css" "a { }" None in
  let A' := mkResult 2 "v2" "src/m.css" "a { color: red }" None in
  let st := run [HotUpdate 0 (module_import A); Connect 0 7] init in
  moduleImport 0 A st = st
  ∧ trace (moduleImport 0 A' st) = trace st ++ [Sent 0 (module_import A')].
Proof.
  intros A A' st.
  destruct (dedup_is_by_object st 0 A A' eq_refl) as (H1 & _ & H3).
  split; [exact H1|]. apply H3. reflexivity.
Defined.

(** C7 as stated fails: [A] is recorded, [A'] is another object with the
    same [id], and the call for [A'] sends an event and adds a record. *)
Lemma same_id_is_delivered_again :
  let A := mkResult 1 "v1" "src/m.css" "a { }" None in
  let A' := mkResult 2 "v2" "src/m.css" "a { color: red }" None in
  let st := run [HotUpdate 0 (module_import A); Connect 0 7] init in
  id A = id A'
  ∧ recorded st 0 A = true
  ∧ trace (moduleImport 0 A' st) = trace st ++ [Sent 0 (module_import A')]
  ∧ modulePendingMap (moduleImport 0 A' st) !! 0 = Some [A; A']
  ∧ moduleImport 0 A' st ≠ st.
Proof.
  intros A A' st. repeat split; try reflexivity.
  intros H. apply (f_equal trace) in H. discriminate H.
Qed.

(** C10.  The set belongs to the server.  Once a result is recorded, a
    call of [moduleImport] on that server changes nothing, before or
    after any connection event, a new client's included: the event
    creates no set and sends no event for the result.  [rsc-reload]
    empties that one set, and [hotUpdate] on another server leaves it as
    it is. *)
Theorem registry_is_per_server (st : State) (vite : ViteDevServer)
    (A : ModuleImportResult) (client : Client) :
  recorded st vite A = true →
  moduleImport vite A st = st
  ∧ (let st1 := connection vite client st in
     moduleImport vite A st1 = st1
     ∧ transported (trace st1) vite A = transported (trace st) vite A
     ∧ records st1 vite A = records st vite A
     ∧ (∀ v, is_Some (modulePendingMap st1 !! v)
             ↔ is_Some (modulePendingMap st !! v)))
  ∧ modulePendingMap (hotUpdate vite rsc_reload st) !! vite = Some []
  ∧ (∀ r, recorded (hotUpdate vite rsc_reload st) vite r = false)
  ∧ (∀ vite' payload, vite' ≠ vite →
       modulePendingMap (hotUpdate vite' payload st) !! vite
       = modulePendingMap st !! vite).
Proof.
  intros HA.
  destruct (connection_delivered _ _ _ _ _ vite client (recorded_delivered _ _ _ HA))
    as (H1 & H2 & H3).
  pose proof (rsc_reload_empties_set _ _ (recorded_has_set _ _ _ HA)) as Hc1.
  split; [apply moduleImport_recorded, HA|]. split; [|split; [|split]].
  - cbv zeta. split; [apply moduleImport_recorded, H1|].
    split; [exact H3|]. split; [exact H2|].
    intros v. split; [apply connection_no_new_set|].
    unfold connection. intros H. apply resume_all_sets_kept. exact H.
  - exact Hc1.
  - intros r. unfold recorded. rewrite Hc1. reflexivity.
  - intros vite' payload Hne. apply hotUpdate_other_server, Hne.
Qed.

Lemma registry_is_per_server_witness :
  let A := mkResult 1 "export {}" "src/m.tsx" "export {}" None in
  let st := run [HotUpdate 0 (module_import A); Connect 0 7] init in
  let st1 := connection 0 8 st in
  moduleImport 0 A st1 = st1
  ∧ modulePendingMap (hotUpdate 0 rsc_reload st) !! 0 = Some [].
Proof.
  intros A st st1.
  destruct (registry_is_per_server st 0 A 8 eq_refl) as (_ & (H & _) & H' & _).
  split; [exact H | exact H'].
Defined.

(** * Further properties of the registry and the gate *)

Section RegistryInvariants.

Lemma has_false_not_in s x : JsSet.has s x = false → ref x ∉ List.map ref s.
Proof.
unfold JsSet.has, JsSet.sameValueZero.
induction s as [|y s IH]; cbn [existsb List.map]; intros H.
- apply not_elem_of_nil.
- apply orb_false_iff in H as [Hy Hs]. apply Nat.eqb_neq in Hy.
  apply not_elem_of_cons. split; [exact Hy | apply IH, Hs].
Qed.

Lemma nodup_snoc_fresh s x :
  NoDup (List.map ref s) → JsSet.has s x = false → NoDup (List.map ref (s ++ [x])).
Proof.
intros Hs Hx. rewrite List.map_app. apply NoDup_app. split; [exact Hs|]. split.
- intros r Hr Hr'. cbn in Hr'. apply list_elem_of_singleton in Hr'. subst r.
  exact (has_false_not_in _ _ Hx Hr).
- cbn. apply NoDup_singleton.
Qed.

Lemma nodup_occurrences s x :
  NoDup (List.map ref s) → (JsSet.occurrences s x ≤ 1)%nat.
Proof.
unfold JsSet.occurrences, JsSet.sameValueZero.
induction s as [|y s IH]; cbn [List.map List.filter]; intros H; [cbn; lia|].
apply NoDup_cons in H as [Hy Hs].
destruct (Nat.eqb_spec (ref x) (ref y)) as [E|_]; [|auto].
cbn [List.length].
assert (Hx : JsSet.has s x = false).
{ destruct (JsSet.has s x) eqn:Hh; [|reflexivity]. exfalso. apply Hy.
  unfold JsSet.has in Hh. apply existsb_exists in Hh as (z & Hz & Hxz).
  apply Nat.eqb_eq in Hxz. rewrite <- E, Hxz.
  apply list_elem_of_In, in_map, Hz. }
pose proof (has_false_occurrences _ _ Hx) as H0.
unfold JsSet.occurrences, JsSet.sameValueZero in H0. rewrite H0. lia.
Qed.

Lemma moduleImport_resume_nodup vite r st :
  registry_nodup st → registry_nodup (moduleImport_resume vite r st).
Proof.
intros H. unfold moduleImport_resume.
destruct (modulePendingMap st !! vite) as [s|] eqn:Hs; [|exact H].
destruct (JsSet.has s r) eqn:Hr; [exact H|].
rewrite (add_fresh _ _ Hr). intros v s'. unfold hot_send. cbn [modulePendingMap].
destruct (decide (vite = v)) as [<-|Hne].
- rewrite lookup_insert_eq. intros [= <-]. apply nodup_snoc_fresh; eauto.
- rewrite lookup_insert_ne by assumption. apply H.
Qed.

Lemma resume_all_nodup waiting st :
  registry_nodup st →
  registry_nodup
    (fold_left (λ acc w, moduleImport_resume (fst w) (snd w) acc) waiting st).
Proof.
revert st. induction waiting as [|w waiting IH]; intros st H; simpl; [exact H|].
apply IH, moduleImport_resume_nodup, H.
Qed.

Lemma step_nodup a st : registry_nodup st → registry_nodup (step a st).
Proof.
intros H. destruct a as [vite payload|vite client]; cbn [step].
- destruct payload as [| |d|r]; cbn [hotUpdate hot_send].
  + intros v s. unfold hot_send. cbn [modulePendingMap]. apply H.
  + intros v s. unfold hot_send, optional_clear. cbn [modulePendingMap].
    destruct (modulePendingMap st !! vite) as [s0|] eqn:Hs; [|apply H].
    destruct (decide (vite = v)) as [<-|Hne].
    * rewrite lookup_insert_eq. intros [= <-]. apply NoDup_nil_2.
    * rewrite lookup_insert_ne by assumption. apply H.
  + exact H.
  + unfold moduleImport. destruct (modulePendingMap st !! vite) as [s0|] eqn:Hs.
    * apply moduleImport_resume_nodup, H.
    * intros v s. cbn [modulePendingMap].
      destruct (decide (vite = v)) as [<-|Hne].
      -- rewrite lookup_insert_eq. intros [= <-]. apply NoDup_nil_2.
      -- rewrite lookup_insert_ne by assumption. apply H.
- unfold connection. apply resume_all_nodup. exact H.
Qed.

Lemma reachable_nodup : ∀ st, reachable st → registry_nodup st.
Proof.
apply (reachable_ind registry_nodup).
- intros v s. cbn. rewrite lookup_empty. discriminate.
- intros a s _. apply step_nodup.
Qed.

(** What was sent since the last [rsc-reload] ends the list of what was
    sent at all. *)
Lemma since_reload_suffix vite tr :
  ∃ earlier, module_imports vite tr = earlier ++ since_reload vite tr.
Proof.
induction tr as [|e tr [earlier IH]] using rev_ind.
- exists []. reflexivity.
- rewrite module_imports_app, since_reload_snoc, IH.
  destruct e as [v c|v [| |d|r]]; cbn [module_imports since_reload_step].
  + exists earlier. rewrite app_nil_r. reflexivity.
  + exists earlier. rewrite app_nil_r. reflexivity.
  + destruct (Nat.eqb v vite).
    * exists (earlier ++ since_reload vite tr). rewrite !app_nil_r. reflexivity.
    * exists earlier. rewrite app_nil_r. reflexivity.
  + exists earlier. rewrite app_nil_r. reflexivity.
  + destruct (Nat.eqb v vite).
    * exists earlier. rewrite app_assoc. reflexivity.
    * exists earlier. rewrite app_nil_r. reflexivity.
Qed.

Lemma has_occurrences s x : JsSet.has s x = true → (1 ≤ JsSet.occurrences s x)%nat.
Proof.
unfold JsSet.has, JsSet.occurrences.
induction s as [|y s IH]; cbn [existsb List.filter]; [discriminate|].
destruct (JsSet.sameValueZero x y); cbn [orb List.length]; [lia | exact IH].
Qed.

Lemma waiting_on_app st vite :
  ∀ l, List.length (List.filter (λ w : nat * ModuleImportResult, Nat.eqb (fst w) vite)
                      (suspended st ++ l))
       = waiting_on st vite
         + List.length (List.filter (λ w : nat * ModuleImportResult, Nat.eqb (fst w) vite) l).
Proof. intros l. unfold waiting_on. rewrite List.filter_app, length_app. reflexivity. Qed.

Lemma filter_filter_neg {A} (f : A → bool) (l : list A) :
  List.filter f (List.filter (λ x, negb (f x)) l) = [].
Proof.
induction l as [|x l IH]; cbn; [reflexivity|].
destruct (f x) eqn:E; cbn; [exact IH|]. rewrite E. exact IH.
Qed.

Lemma filter_filter_other (vite v : nat) (l : list (nat * ModuleImportResult)) :
  v ≠ vite →
  List.filter (λ w, Nat.eqb (fst w) v) (List.filter (λ w, negb (Nat.eqb (fst w) vite)) l)
  = List.filter (λ w, Nat.eqb (fst w) v) l.
Proof.
intros Hne. induction l as [|[u r] l IH]; cbn [List.filter fst]; [reflexivity|].
destruct (Nat.eqb_spec u vite) as [->|Hu]; cbn [negb List.filter fst].
- destruct (Nat.eqb_spec vite v) as [E|_]; [congruence | exact IH].
- rewrite IH. reflexivity.
Qed.

Lemma connection_waiting_on vite client st v :
  waiting_on (connection vite client st) v
  = if Nat.eqb v vite then 0 else waiting_on st v.
Proof.
unfold waiting_on. rewrite connection_suspended.
destruct (Nat.eqb_spec v vite) as [->|Hne].
- rewrite filter_filter_neg. reflexivity.
- rewrite filter_filter_other by assumption. reflexivity.
Qed.

Lemma waiting_on_no_set st vite :
  suspended_have_set st = true → modulePendingMap st !! vite = None →
  waiting_on st vite = 0.
Proof.
intros H Hn. unfold waiting_on.
destruct (no_waiter_without_set _ _ H Hn) as [-> _]. reflexivity.
Qed.

End RegistryInvariants.

Section GateInvariants.

Lemma step_sets_kept a st :
  sets_kept (modulePendingMap st) (modulePendingMap (step a st)).
Proof.
destruct a as [vite payload|vite client]; cbn [step].
- destruct payload as [| |d|r]; cbn [hotUpdate]; unfold hot_send;
    cbn [modulePendingMap]; try apply sets_kept_refl.
  + unfold optional_clear. destruct (modulePendingMap st !! vite);
      [apply sets_kept_insert | apply sets_kept_refl].
  + unfold moduleImport. destruct (modulePendingMap st !! vite).
    * apply moduleImport_resume_sets_kept.
    * apply sets_kept_insert.
- unfold connection.
  apply (resume_all_sets_kept _
           (mkState (modulePendingMap st)
              (List.filter (λ w, negb (Nat.eqb (fst w) vite)) (suspended st))
              (trace st ++ [Connection vite client]))).
Qed.

Lemma hotUpdate_waiting_on vite payload st v :
  waiting_on (hotUpdate vite payload st) v
  = match payload, modulePendingMap st !! vite with
    | module_import _, None => waiting_on st v + (if Nat.eqb vite v then 1 else 0)
    | _, _ => waiting_on st v
    end.
Proof.
destruct payload as [| |d|r]; cbn [hotUpdate]; try reflexivity.
unfold moduleImport. destruct (modulePendingMap st !! vite) as [s|] eqn:Hs.
- unfold waiting_on. rewrite moduleImport_resume_suspended. reflexivity.
- unfold waiting_on at 1. cbn [suspended]. rewrite waiting_on_app.
  cbn [List.filter fst]. destruct (Nat.eqb vite v); reflexivity.
Qed.

Lemma step_waiting_on_bound a st :
  suspended_have_set st = true →
  (∀ v, (waiting_on st v ≤ 1)%nat) → ∀ v, (waiting_on (step a st) v ≤ 1)%nat.
Proof.
intros Hs H v. destruct a as [vite payload|vite client]; cbn [step].
- rewrite hotUpdate_waiting_on.
  destruct payload as [| |d|r]; try apply H;
    destruct (modulePendingMap st !! vite) eqn:E; try apply H.
  destruct (Nat.eqb_spec vite v) as [->|_].
  + rewrite (waiting_on_no_set _ _ Hs E). lia.
  + specialize (H v). lia.
- rewrite connection_waiting_on. destruct (Nat.eqb v vite); [lia | apply H].
Qed.

Lemma step_waiting_on_with_set a st v :
  is_Some (modulePendingMap st !! v) →
  (waiting_on (step a st) v ≤ waiting_on st v)%nat.
Proof.
intros [s Hs]. destruct a as [vite payload|vite client]; cbn [step].
- rewrite hotUpdate_waiting_on.
  destruct payload as [| |d|r]; try lia;
    destruct (modulePendingMap st !! vite) eqn:E; try lia.
  destruct (Nat.eqb_spec vite v) as [->|_]; [congruence | lia].
- rewrite connection_waiting_on. destruct (Nat.eqb v vite); lia.
Qed.

Lemma filter_filter_same {A} (f : A → bool) (l : list A) :
  List.filter f (List.filter f l) = List.filter f l.
Proof.
induction l as [|x l IH]; cbn; [reflexivity|].
destruct (f x) eqn:E; cbn; [rewrite E, IH; reflexivity | exact IH].
Qed.

Lemma connection_no_waiter vite client st :
  List.filter (λ w, Nat.eqb (fst w) vite) (suspended st) = [] →
  connection vite client st
  = mkState (modulePendingMap st) (suspended st) (trace st ++ [Connection vite client]).
Proof.
intros H. unfold connection. rewrite H. cbn [fold_left]. f_equal.
apply filter_all. apply forallb_forall. intros w Hw.
destruct (Nat.eqb (fst w) vite) eqn:E; [|reflexivity].
assert (Hin : In w (List.filter (λ w, Nat.eqb (fst w) vite) (suspended st))).
{ apply List.filter_In. split; assumption. }
rewrite H in Hin. destruct Hin.
Qed.

Lemma moduleImport_resume_other vite r st v :
  vite ≠ v →
  modulePendingMap (moduleImport_resume vite r st) !! v = modulePendingMap st !! v
  ∧ module_imports v (trace (moduleImport_resume vite r st)) = module_imports v (trace st).
Proof.
intros Hne. unfold moduleImport_resume.
destruct (modulePendingMap st !! vite) as [s|]; [|split; reflexivity].
destruct (JsSet.has s r); [split; reflexivity|].
unfold hot_send. cbn [modulePendingMap trace]. split.
- apply lookup_insert_ne, Hne.
- rewrite module_imports_app. cbn [module_imports].
  destruct (Nat.eqb_spec vite v) as [E|_]; [contradiction | apply app_nil_r].
Qed.

Lemma resume_all_other vite v waiting : ∀ st,
  vite ≠ v →
  Forall (λ w : nat * ModuleImportResult, fst w = vite) waiting →
  let st' := fold_left (λ acc w, moduleImport_resume (fst w) (snd w) acc) waiting st in
  modulePendingMap st' !! v = modulePendingMap st !! v
  ∧ module_imports v (trace st') = module_imports v (trace st).
Proof.
induction waiting as [|w waiting IH]; intros st Hne Hall; [split; reflexivity|].
apply Forall_cons in Hall as [Hw Hall]. cbn [fold_left].
destruct (IH (moduleImport_resume (fst w) (snd w) st) Hne Hall) as [H1 H2].
destruct (moduleImport_resume_other (fst w) (snd w) st v) as [H3 H4];
  [rewrite Hw; exact Hne|].
cbv zeta in *. rewrite H1, H2, H3, H4. split; reflexivity.
Qed.

End GateInvariants.

(** X1.  In every state the module can reach, no set holds an object
    twice: the references of its elements are pairwise different, and an
    object is counted at most once. *)
Theorem sets_hold_no_duplicates (st : State) (vite : ViteDevServer)
    (sourceSet : list ModuleImportResult) :
  reachable st →
  modulePendingMap st !! vite = Some sourceSet →
  NoDup (List.map ref sourceSet) ∧ ∀ r, (records st vite r ≤ 1)%nat.
Proof.
intros Hr Hs. pose proof (reachable_nodup _ Hr _ _ Hs) as Hn.
split; [exact Hn|]. intros r. unfold records. rewrite Hs.
apply nodup_occurrences, Hn.
Qed.

Lemma sets_hold_no_duplicates_witness :
  let A := mkResult 1 "export {}" "src/m.tsx" "export {}" None in
  let B := mkResult 2 "export {}" "src/n.tsx" "export {}" None in
  NoDup (List.map ref [B; A]).
Proof.
intros A B.
apply (sets_hold_no_duplicates
         (run [HotUpdate 0 (module_import A); HotUpdate 0 (module_import B);
               HotUpdate 0 (module_import A); Connect 0 7;
               HotUpdate 0 (module_import B)] init) 0 [B; A]).
- eexists. reflexivity.
- reflexivity.
Defined.

(** X2.  In every reachable state at most one call of [moduleImport] is
    suspended on a server: only the call that creates the set waits. *)
Theorem at_most_one_suspended_call (st : State) (vite : ViteDevServer) :
  reachable st → (waiting_on st vite ≤ 1)%nat.
Proof.
intros Hr. revert vite. revert st Hr.
apply (reachable_ind (λ st, ∀ v, (waiting_on st v ≤ 1)%nat)).
- intros v. cbn. lia.
- intros a st Hr IH. apply step_waiting_on_bound; [|exact IH].
  apply reachable_suspended_have_set, Hr.
Qed.

Lemma at_most_one_suspended_call_witness :
  let A := mkResult 1 "export {}" "src/m.tsx" "export {}" None in
  let B := mkResult 2 "export {}" "src/n.tsx" "export {}" None in
  (waiting_on (run [HotUpdate 0 (module_import A); HotUpdate 0 (module_import B)] init) 0
   ≤ 1)%nat.
Proof.
intros A B. apply at_most_one_suspended_call. eexists. reflexivity.
Defined.

(** X3.  A set is never taken out of the map: once a server has one it
    has one after any further calls and events, and no later call of
    [moduleImport] on that server is suspended. *)
Theorem server_with_set_never_waits_again (st : State) (vite : ViteDevServer)
    (actions : list Action) :
  is_Some (modulePendingMap st !! vite) →
  is_Some (modulePendingMap (run actions st) !! vite)
  ∧ (waiting_on (run actions st) vite ≤ waiting_on st vite)%nat.
Proof.
revert st. induction actions as [|a actions IH]; intros st Hs; [split; [exact Hs | apply Nat.le_refl]|].
change (run (a :: actions) st) with (run actions (step a st)).
destruct (IH (step a st) (step_sets_kept a st vite Hs)) as [H1 H2].
split; [exact H1|].
pose proof (step_waiting_on_with_set a st vite Hs). lia.
Qed.

Lemma server_with_set_never_waits_again_witness :
  let A := mkResult 1 "export {}" "src/m.tsx" "export {}" None in
  let B := mkResult 2 "export {}" "src/n.tsx" "export {}" None in
  let st := connection 0 7 (moduleImport 0 A init) in
  (waiting_on (run [HotUpdate 0 rsc_reload; HotUpdate 0 (module_import B)] st) 0
   ≤ waiting_on st 0)%nat.
Proof.
intros A B st.
apply (server_with_set_never_waits_again st 0
         [HotUpdate 0 rsc_reload; HotUpdate 0 (module_import B)]).
eexists. reflexivity.
Defined.

(** X4.  Between two [rsc-reload] events of a server no object is sent
    twice as [module-import] on that server: what was sent since the last
    [rsc-reload] has pairwise different references. *)
Theorem not_sent_twice_between_reloads (st : State) (vite : ViteDevServer) :
  reachable st → NoDup (List.map ref (since_reload vite (trace st))).
Proof.
intros Hr. rewrite (reachable_registry_order _ Hr vite).
destruct (modulePendingMap st !! vite) as [s|] eqn:Hs; cbn [default].
- apply (reachable_nodup _ Hr _ _ Hs).
- apply NoDup_nil_2.
Qed.

Lemma not_sent_twice_between_reloads_witness :
  let A := mkResult 1 "export {}" "src/m.tsx" "export {}" None in
  let st := run [HotUpdate 0 (module_import A); Connect 0 7;
                 HotUpdate 0 rsc_reload; HotUpdate 0 (module_import A);
                 HotUpdate 0 (module_import A)] init in
  module_imports 0 (trace st) = [A; A]
  ∧ NoDup (List.map ref (since_reload 0 (trace st))).
Proof.
intros A st. split; [reflexivity|].
apply not_sent_twice_between_reloads. eexists. reflexivity.
Defined.

(** X5.  A recorded object was sent: in every reachable state, an object
    held by the set of a server was carried by at least one
    [module-import] event on that server. *)
Theorem recorded_was_sent (st : State) (vite : ViteDevServer)
    (r : ModuleImportResult) :
  reachable st → recorded st vite r = true →
  (1 ≤ transported (trace st) vite r)%nat.
Proof.
intros Hr Hrec. unfold recorded in Hrec.
destruct (modulePendingMap st !! vite) as [s|] eqn:Hs; [|discriminate].
pose proof (reachable_registry_order _ Hr vite) as Ho. rewrite Hs in Ho.
change (since_reload vite (trace st) = s) in Ho.
destruct (since_reload_suffix vite (trace st)) as [earlier He].
unfold transported. rewrite He, Ho, occurrences_app.
pose proof (has_occurrences _ _ Hrec). lia.
Qed.

Lemma recorded_was_sent_witness :
  let A := mkResult 1 "export {}" "src/m.tsx" "export {}" None in
  let st := run [HotUpdate 0 (module_import A); Connect 0 7] init in
  (1 ≤ transported (trace st) 0 A)%nat.
Proof.
intros A st. apply recorded_was_sent; [eexists|]; reflexivity.
Defined.

(** X6.  [full-reload] is sent and nothing else: the sets are as before,
    so a recorded object is still recorded, a call of [moduleImport] for
    it still changes nothing, and [generateInitialScripts] returns the
    same tags. *)
Theorem full_reload_keeps_registry (st : State) (vite : ViteDevServer) :
  let st1 := hotUpdate vite full_reload st in
  trace st1 = trace st ++ [Sent vite full_reload]
  ∧ (∀ v r, recorded st1 v r = recorded st v r)
  ∧ (∀ r, recorded st vite r = true → hotUpdate vite (module_import r) st1 = st1)
  ∧ (∀ viteServer, generateInitialScripts viteServer st1
                   = generateInitialScripts viteServer st).
Proof.
intros st1. split; [reflexivity|]. split; [reflexivity|]. split; [|reflexivity].
intros r Hr. cbn [hotUpdate]. apply moduleImport_recorded. exact Hr.
Qed.

Lemma run_with_set actions : ∀ st vite,
  is_Some (modulePendingMap st !! vite) →
  is_Some (modulePendingMap (run actions st) !! vite)
  ∧ (waiting_on (run actions st) vite ≤ waiting_on st vite)%nat.
Proof.
induction actions as [|a actions IH]; intros st vite Hs;
  [split; [exact Hs | apply Nat.le_refl]|].
change (run (a :: actions) st) with (run actions (step a st)).
destruct (IH (step a st) vite (step_sets_kept a st vite Hs)) as [H1 H2].
split; [exact H1|].
pose proof (step_waiting_on_with_set a st vite Hs). lia.
Qed.

Lemma waiting_on_zero st vite :
  waiting_on st vite = 0 →
  List.filter (λ w, Nat.eqb (fst w) vite) (suspended st) = [].
Proof. unfold waiting_on. apply length_zero_iff_nil. Qed.

(** X7.  A connection event that comes right after a connection event
    of the same server resumes no call and sends nothing: it only
    appends itself to the history.  When the server had a set at the
    first of the two events, the same holds whatever calls of
    [hotUpdate] and connection events come between the two. *)
Theorem later_connection_resumes_nothing (st : State) (vite : ViteDevServer)
    (c1 c2 : Client) (actions : list Action) :
  (let st1 := connection vite c1 st in
   connection vite c2 st1
   = mkState (modulePendingMap st1) (suspended st1)
             (trace st1 ++ [Connection vite c2]))
  ∧ (is_Some (modulePendingMap st !! vite) →
     let st1 := run actions (connection vite c1 st) in
     connection vite c2 st1
     = mkState (modulePendingMap st1) (suspended st1)
               (trace st1 ++ [Connection vite c2])).
Proof.
split.
- intros st1. apply connection_no_waiter.
  unfold st1. rewrite connection_suspended. apply filter_filter_neg.
- intros Hs st1. apply connection_no_waiter, waiting_on_zero.
  assert (Hs1 : is_Some (modulePendingMap (connection vite c1 st) !! vite)).
  { apply (step_sets_kept (Connect vite c1) st vite Hs). }
  destruct (run_with_set actions _ vite Hs1) as [_ Hle]. fold st1 in Hle.
  rewrite connection_waiting_on, Nat.eqb_refl in Hle. lia.
Qed.

Lemma later_connection_resumes_nothing_witness :
  let A := mkResult 1 "export {}" "src/m.tsx" "export {}" None in
  let B := mkResult 2 "export {}" "src/n.tsx" "export {}" None in
  let st := moduleImport 0 A init in
  let st1 := run [HotUpdate 0 rsc_reload; HotUpdate 0 (module_import B)]
                 (connection 0 7 st) in
  trace (connection 0 8 st1) = trace st1 ++ [Connection 0 8].
Proof.
intros A B st st1.
destruct (later_connection_resumes_nothing st 0 7 8
            [HotUpdate 0 rsc_reload; HotUpdate 0 (module_import B)]) as [_ H].
fold st1 in H. rewrite H; [reflexivity|]. eexists. reflexivity.
Defined.

(** X8.  [rsc-reload] does not cancel a suspended call.  With no set for
    the server, a call for [A], then [rsc-reload], then a connection
    event: [rsc-reload] is sent first, and [A] is recorded and sent when
    the connection event comes. *)
Theorem rsc_reload_keeps_suspended_call (st : State) (vite : ViteDevServer)
    (client : Client) (A : ModuleImportResult) :
  suspended_have_set st = true →
  modulePendingMap st !! vite = None →
  let st' := run [HotUpdate vite (module_import A); HotUpdate vite rsc_reload;
                  Connect vite client] st in
  trace st' = trace st ++ [Sent vite rsc_reload; Connection vite client;
                           Sent vite (module_import A)]
  ∧ modulePendingMap st' = <[vite := [A]]> (modulePendingMap st)
  ∧ suspended st' = suspended st.
Proof.
intros Hsusp Hnone st'.
destruct (no_waiter_without_set _ _ Hsusp Hnone) as [Hwoken Hothers].
assert (Hst' : st' = mkState (<[vite := [A]]> (modulePendingMap st)) (suspended st)
                       (trace st ++ [Sent vite rsc_reload; Connection vite client;
                                     Sent vite (module_import A)])).
{ unfold st', run. cbn [fold_left step hotUpdate].
  rewrite (moduleImport_no_set _ _ _ Hnone).
  unfold hot_send, optional_clear. cbn [modulePendingMap suspended trace].
  rewrite lookup_insert_eq, insert_insert_eq.
  unfold connection. cbn [modulePendingMap suspended trace].
  rewrite !List.filter_app, Hwoken, Hothers. cbn [List.filter fst].
  rewrite Nat.eqb_refl. cbn [negb app fold_left fst snd].
  erewrite moduleImport_resume_fresh;
    [| cbn [modulePendingMap]; apply lookup_insert_eq | reflexivity ].
  cbn [modulePendingMap suspended trace app JsSet.clear].
  rewrite insert_insert_eq, app_nil_r, <- !app_assoc. reflexivity. }
rewrite Hst'. repeat split.
Qed.

Lemma rsc_reload_keeps_suspended_call_witness :
  let A := mkResult 1 "export {}" "src/m.tsx" "export {}" None in
  trace (run [HotUpdate 0 (module_import A); HotUpdate 0 rsc_reload; Connect 0 7] init)
  = [Sent 0 rsc_reload; Connection 0 7; Sent 0 (module_import A)].
Proof.
intros A.
destruct (rsc_reload_keeps_suspended_call init 0 7 A eq_refl eq_refl) as [H _].
exact H.
Defined.

(** X9.  [rsc-reload] on a server that has no set creates none (the
    [?.] of line 218): the event is sent, the map is as before, and the
    next call of [moduleImport] on that server is the one that waits. *)
Theorem rsc_reload_without_set (st : State) (vite : ViteDevServer)
    (r : ModuleImportResult) :
  modulePendingMap st !! vite = None →
  let st1 := hotUpdate vite rsc_reload st in
  modulePendingMap st1 = modulePendingMap st
  ∧ trace st1 = trace st ++ [Sent vite rsc_reload]
  ∧ suspended (hotUpdate vite (module_import r) st1) = suspended st ++ [(vite, r)]
  ∧ trace (hotUpdate vite (module_import r) st1) = trace st1.
Proof.
intros Hnone st1.
assert (Hm : modulePendingMap st1 = modulePendingMap st).
{ unfold st1, hotUpdate, hot_send, optional_clear. cbn [modulePendingMap].
  rewrite Hnone. reflexivity. }
split; [exact Hm|]. split; [reflexivity|].
cbn [hotUpdate]. rewrite moduleImport_no_set by (rewrite Hm; exact Hnone).
split; reflexivity.
Qed.

Lemma rsc_reload_without_set_witness :
  let A := mkResult 1 "export {}" "src/m.tsx" "export {}" None in
  suspended (hotUpdate 0 (module_import A) (hotUpdate 0 rsc_reload init)) = [(0, A)].
Proof.
intros A.
destruct (rsc_reload_without_set init 0 A eq_refl) as (_ & _ & H & _). exact H.
Defined.

(** X10.  A connection event of one server leaves the other servers
    alone: their sets, their suspended calls and what was sent on them
    are as before. *)
Theorem connection_leaves_other_servers (st : State) (vite v : ViteDevServer)
    (client : Client) :
  v ≠ vite →
  let st' := connection vite client st in
  modulePendingMap st' !! v = modulePendingMap st !! v
  ∧ List.filter (λ w, Nat.eqb (fst w) v) (suspended st')
    = List.filter (λ w, Nat.eqb (fst w) v) (suspended st)
  ∧ module_imports v (trace st') = module_imports v (trace st).
Proof.
intros Hne st'.
assert (Hall : Forall (λ w : nat * ModuleImportResult, fst w = vite)
                 (List.filter (λ w, Nat.eqb (fst w) vite) (suspended st))).
{ apply Forall_forall. intros w Hw. apply list_elem_of_In, List.filter_In in Hw.
  apply Nat.eqb_eq, Hw. }
destruct (resume_all_other vite v _
            (mkState (modulePendingMap st)
               (List.filter (λ w, negb (Nat.eqb (fst w) vite)) (suspended st))
               (trace st ++ [Connection vite client]))
            (not_eq_sym Hne) Hall) as [H1 H2].
split; [exact H1|]. split.
- unfold st'. rewrite connection_suspended. apply filter_filter_other, Hne.
- unfold st', connection. cbv zeta in H2. rewrite H2. cbn [trace].
  rewrite module_imports_app. apply app_nil_r.
Qed.

Lemma connection_leaves_other_servers_witness :
  let A := mkResult 1 "export {}" "src/m.tsx" "export {}" None in
  let st := run [HotUpdate 0 (module_import A); HotUpdate 1 (module_import A)] init in
  List.filter (λ w, Nat.eqb (fst w) 1) (suspended (connection 0 7 st)) = [(1, A)].
Proof.
intros A st.
destruct (connection_leaves_other_servers st 0 1 7) as (_ & H & _); [lia|].
rewrite H. reflexivity.
Defined.

(** * Further properties of [generateInitialScripts] *)

Section PlannerShape.

Lemma loop_length sourceSet injected :
  List.length (initialScripts_loop sourceSet injected)
  = List.length sourceSet
    + (if negb injected && existsb isCssModule sourceSet then 1 else 0).
Proof.
revert injected. induction sourceSet as [|r rest IH]; intros injected;
  cbn [initialScripts_loop existsb List.length].
- rewrite andb_false_r. reflexivity.
- destruct (isCssModule r); cbn [orb].
  + rewrite length_app. cbn [List.length]. rewrite IH.
    destruct injected; cbn; lia.
  + cbn [List.length]. rewrite IH. reflexivity.
Qed.

Lemma loop_without_blocking sourceSet injected :
  List.filter (λ el, bool_decide (el ≠ blockingViteClient))
              (initialScripts_loop sourceSet injected)
  = List.map artifactTag sourceSet.
Proof.
revert injected. induction sourceSet as [|r rest IH]; intros injected;
  cbn [initialScripts_loop List.map]; [reflexivity|].
unfold artifactTag at 1. destruct (isCssModule r).
- rewrite List.filter_app. cbn [List.filter].
  rewrite (bool_decide_eq_true_2 _ (cssModuleScript_not_blocking r)), IH.
  destruct injected; reflexivity.
- cbn [List.filter].
  rewrite (bool_decide_eq_true_2 _ (styleTag_not_blocking r)), IH. reflexivity.
Qed.

Lemma artifactTag_id r : getAttribute "WAKU_ATTR_NAME" (artifactTag r) = Some (id r).
Proof. unfold artifactTag. destruct (isCssModule r); reflexivity. Qed.

Lemma loop_nil_iff sourceSet injected :
  initialScripts_loop sourceSet injected = [] ↔ sourceSet = [].
Proof.
split; [|intros ->; reflexivity].
destruct sourceSet as [|r rest]; [reflexivity|]. cbn [initialScripts_loop].
destruct (isCssModule r); [destruct injected|]; discriminate.
Qed.

Lemma connection_after_first_call st vite client A :
  suspended_have_set st = true →
  modulePendingMap st !! vite = None →
  connection vite client (moduleImport vite A st)
  = mkState (<[vite := [A]]> (modulePendingMap st)) (suspended st)
            (trace st ++ [Connection vite client; Sent vite (module_import A)]).
Proof.
intros Hsusp Hnone.
destruct (no_waiter_without_set _ _ Hsusp Hnone) as [Hwoken Hothers].
rewrite (moduleImport_no_set _ _ _ Hnone).
unfold connection. cbn [modulePendingMap suspended trace].
rewrite !List.filter_app, Hwoken, Hothers. cbn [List.filter fst].
rewrite Nat.eqb_refl. cbn [negb app fold_left fst snd].
erewrite moduleImport_resume_fresh;
  [| cbn [modulePendingMap]; apply lookup_insert_eq | reflexivity ].
cbn [modulePendingMap suspended trace app].
rewrite insert_insert_eq, app_nil_r, <- !app_assoc. reflexivity.
Qed.

End PlannerShape.

(** X11.  [generateInitialScripts] returns one tag for each result of
    the set, and one more, the blocking tag, when the set holds a css
    module. *)
Theorem planner_length (st : State) (vite : ViteDevServer)
    (sourceSet : list ModuleImportResult) :
  modulePendingMap st !! vite = Some sourceSet →
  List.length (generateInitialScripts (Some vite) st)
  = List.length sourceSet + (if existsb isCssModule sourceSet then 1 else 0).
Proof.
intros Hs. unfold generateInitialScripts. rewrite Hs. apply loop_length.
Qed.

Lemma planner_length_witness :
  let a := mkResult 1 "import '/@vite/client'" "src/a.module.css" "" None in
  let b := mkResult 2 "" "src/b.css" "body { margin: 0 }" None in
  let c := mkResult 3 "import '/@vite/client'" "src/c.module.css" "" None in
  List.length (generateInitialScripts (Some 0) (mkState {[ 0 := [b; a; c] ]} [] [])) = 4.
Proof.
intros a b c.
rewrite (planner_length (mkState {[ 0 := [b; a; c] ]} [] []) 0 [b; a; c]);
  reflexivity.
Defined.

(** X12.  Apart from the blocking tag, the tags come in the insertion
    order of the set, one for each result: a script for a css module, a
    style for any other result, each carrying the [id] of its result. *)
Theorem planner_keeps_registration_order (st : State) (vite : ViteDevServer)
    (sourceSet : list ModuleImportResult) :
  modulePendingMap st !! vite = Some sourceSet →
  let tags := List.filter (λ el, bool_decide (el ≠ blockingViteClient))
                          (generateInitialScripts (Some vite) st) in
  tags = List.map artifactTag sourceSet
  ∧ List.map (getAttribute "WAKU_ATTR_NAME") tags
    = List.map (λ r, Some (id r)) sourceSet.
Proof.
intros Hs tags.
assert (Ht : tags = List.map artifactTag sourceSet).
{ unfold tags, generateInitialScripts. rewrite Hs. apply loop_without_blocking. }
split; [exact Ht|]. rewrite Ht, List.map_map.
apply List.map_ext. intros r. apply artifactTag_id.
Qed.

Lemma planner_keeps_registration_order_witness :
  let a := mkResult 1 "import '/@vite/client'" "src/a.module.css" "" None in
  let b := mkResult 2 "" "src/b.css" "body { margin: 0 }" None in
  let c := mkResult 3 "import '/@vite/client'" "src/c.module.css" "" None in
  List.filter (λ el, bool_decide (el ≠ blockingViteClient))
    (generateInitialScripts (Some 0) (mkState {[ 0 := [b; a; c] ]} [] []))
  = [styleTag b; cssModuleScript a; cssModuleScript c].
Proof.
intros a b c.
destruct (planner_keeps_registration_order
            (mkState {[ 0 := [b; a; c] ]} [] []) 0 [b; a; c]) as [H _];
  [reflexivity|].
rewrite H. reflexivity.
Defined.

(** X13.  [generateInitialScripts] returns no tag exactly when it is
    given no server, or the server has no set, or its set is empty. *)
Theorem planner_empty_iff (viteServer : option ViteDevServer) (st : State) :
  generateInitialScripts viteServer st = []
  ↔ viteServer = None
    ∨ ∃ vite, viteServer = Some vite
              ∧ (modulePendingMap st !! vite = None
                 ∨ modulePendingMap st !! vite = Some []).
Proof.
unfold generateInitialScripts. destruct viteServer as [vite|].
- destruct (modulePendingMap st !! vite) as [s|] eqn:Hs.
  + rewrite loop_nil_iff. split.
    * intros ->. right. exists vite. rewrite Hs. auto.
    * intros [H|(v & [= <-] & [H|H])]; [discriminate | congruence | congruence].
  + split; [|reflexivity]. intros _. right. exists vite. rewrite Hs. auto.
- split; [auto | reflexivity].
Qed.

(** X14.  After [rsc-reload] on a server, [generateInitialScripts]
    returns no tag for that server, and the same tags as before for any
    other server. *)
Theorem planner_empty_after_rsc_reload (st : State) (vite : ViteDevServer) :
  generateInitialScripts (Some vite) (hotUpdate vite rsc_reload st) = []
  ∧ (∀ v, v ≠ vite →
       generateInitialScripts (Some v) (hotUpdate vite rsc_reload st)
       = generateInitialScripts (Some v) st).
Proof.
split.
- unfold generateInitialScripts, hotUpdate, hot_send, optional_clear.
  cbn [modulePendingMap].
  destruct (modulePendingMap st !! vite) as [s|] eqn:Hs.
  + rewrite lookup_insert_eq. reflexivity.
  + rewrite Hs. reflexivity.
- intros v Hne. unfold generateInitialScripts.
  rewrite (hotUpdate_other_server st v vite rsc_reload (not_eq_sym Hne)).
  reflexivity.
Qed.

(** X15.  In every reachable state the tags are those of the results
    sent on the server since its last [rsc-reload], in the order they
    were sent. *)
Theorem planner_reads_what_was_sent (st : State) (vite : ViteDevServer) :
  reachable st →
  generateInitialScripts (Some vite) st
  = initialScripts_loop (since_reload vite (trace st)) false.
Proof.
intros Hr. rewrite (reachable_registry_order _ Hr vite).
unfold generateInitialScripts.
destruct (modulePendingMap st !! vite); reflexivity.
Qed.

Lemma planner_reads_what_was_sent_witness :
  let a := mkResult 1 "import '/@vite/client'" "src/a.module.css" "" None in
  let b := mkResult 2 "" "src/b.css" "body { margin: 0 }" None in
  let st := run [HotUpdate 0 (module_import b); Connect 0 7;
                 HotUpdate 0 rsc_reload; HotUpdate 0 (module_import a)] init in
  generateInitialScripts (Some 0) st = [blockingViteClient; cssModuleScript a].
Proof.
intros a b st.
rewrite (planner_reads_what_was_sent st 0); [reflexivity|].
eexists. reflexivity.
Defined.

Section WaitingAlone.

Lemma filter_snoc_other (vite v : nat) (r : ModuleImportResult)
    (l : list (nat * ModuleImportResult)) :
  v ≠ vite →
  List.filter (λ w, Nat.eqb (fst w) vite) (l ++ [(v, r)])
  = List.filter (λ w, Nat.eqb (fst w) vite) l.
Proof.
intros Hne. rewrite List.filter_app. cbn [List.filter fst].
destruct (Nat.eqb_spec v vite); [contradiction | apply app_nil_r].
Qed.

Lemma step_waits_alone a st vite A :
  waits_alone st vite A → leaves_alone vite a = true →
  waits_alone (step a st) vite A.
Proof.
intros [Hm Hw] Ha. destruct a as [v payload|v c]; cbn [step].
- destruct payload as [| |d|r]; cbn [hotUpdate leaves_alone] in *.
  + split; assumption.
  + split; [|exact Hw]. unfold hot_send, optional_clear. cbn [modulePendingMap].
    destruct (decide (v = vite)) as [->|Hne].
    * rewrite Hm. apply lookup_insert_eq.
    * destruct (modulePendingMap st !! v); [|exact Hm].
      rewrite lookup_insert_ne by assumption. exact Hm.
  + split; assumption.
  + apply negb_true_iff, Nat.eqb_neq in Ha. split.
    * pose proof (hotUpdate_other_server st vite v (module_import r) Ha) as Ho.
      cbn [hotUpdate] in Ho. rewrite Ho. exact Hm.
    * unfold moduleImport.
      destruct (modulePendingMap st !! v).
      -- rewrite moduleImport_resume_suspended. exact Hw.
      -- cbn [suspended]. rewrite filter_snoc_other by assumption. exact Hw.
- cbn [leaves_alone] in Ha. apply negb_true_iff, Nat.eqb_neq in Ha. split.
  + assert (Hall : Forall (λ w : nat * ModuleImportResult, fst w = v)
                     (List.filter (λ w, Nat.eqb (fst w) v) (suspended st))).
    { apply Forall_forall. intros w Hin.
      apply list_elem_of_In, List.filter_In in Hin. apply Nat.eqb_eq, Hin. }
    destruct (resume_all_other v vite _
                (mkState (modulePendingMap st)
                   (List.filter (λ w, negb (Nat.eqb (fst w) v)) (suspended st))
                   (trace st ++ [Connection v c])) Ha Hall) as [H1 _].
    unfold connection. cbv zeta in H1. rewrite H1. exact Hm.
  + rewrite connection_suspended, filter_filter_other by (apply not_eq_sym, Ha).
    exact Hw.
Qed.

Lemma run_waits_alone actions : ∀ st vite A,
  waits_alone st vite A → forallb (leaves_alone vite) actions = true →
  waits_alone (run actions st) vite A.
Proof.
induction actions as [|a actions IH]; intros st vite A H Hq; [exact H|].
cbn [forallb] in Hq. apply andb_true_iff in Hq as [Ha Hq].
apply (IH (step a st)); [apply step_waits_alone; assumption | exact Hq].
Qed.

Lemma moduleImport_waits_alone st vite A :
  suspended_have_set st = true → modulePendingMap st !! vite = None →
  waits_alone (moduleImport vite A st) vite A.
Proof.
intros Hsusp Hnone. rewrite (moduleImport_no_set _ _ _ Hnone).
destruct (no_waiter_without_set _ _ Hsusp Hnone) as [Hw _].
split; cbn [modulePendingMap suspended].
- apply lookup_insert_eq.
- rewrite List.filter_app, Hw. cbn [List.filter fst]. rewrite Nat.eqb_refl.
  reflexivity.
Qed.

Lemma connection_waits_alone st vite client A :
  waits_alone st vite A →
  modulePendingMap (connection vite client st) !! vite = Some [A].
Proof.
intros [Hm Hw]. unfold connection. rewrite Hw. cbn [fold_left fst snd].
erewrite moduleImport_resume_fresh; [| cbn [modulePendingMap]; exact Hm | reflexivity].
cbn [modulePendingMap]. apply lookup_insert_eq.
Qed.

End WaitingAlone.

(** X16.  The result of the call that waits is not in the page before
    the connection event.  After the call that creates the set of a
    server, and as long as no other [module-import] is asked for on
    that server and no connection event of that server comes,
    [generateInitialScripts] returns no tag for the server; when the
    connection event then comes it returns the tags of that result. *)
Theorem suspended_result_not_in_page (st : State) (vite : ViteDevServer)
    (client : Client) (A : ModuleImportResult) (actions : list Action) :
  suspended_have_set st = true →
  modulePendingMap st !! vite = None →
  forallb (leaves_alone vite) actions = true →
  let st1 := run actions (moduleImport vite A st) in
  generateInitialScripts (Some vite) st1 = []
  ∧ generateInitialScripts (Some vite) (connection vite client st1)
    = initialScripts_loop [A] false.
Proof.
intros Hsusp Hnone Hq st1.
assert (Hw : waits_alone st1 vite A).
{ apply run_waits_alone; [|exact Hq]. apply moduleImport_waits_alone; assumption. }
split.
- unfold generateInitialScripts. destruct Hw as [-> _]. reflexivity.
- unfold generateInitialScripts. rewrite (connection_waits_alone _ _ _ _ Hw).
  reflexivity.
Qed.

Lemma suspended_result_not_in_page_witness :
  let a := mkResult 1 "import '/@vite/client'" "src/a.module.css" "" None in
  let b := mkResult 2 "" "src/b.css" "body { margin: 0 }" None in
  let actions := [HotUpdate 0 full_reload; HotUpdate 1 (module_import a);
                  Connect 1 9; HotUpdate 0 rsc_reload] in
  let st1 := run actions (moduleImport 0 b init) in
  generateInitialScripts (Some 0) st1 = []
  ∧ generateInitialScripts (Some 0) (connection 0 7 st1) = [styleTag b].
Proof.
intros a b actions st1.
destruct (suspended_result_not_in_page init 0 7 b actions eq_refl eq_refl eq_refl)
  as [H1 H2].
split; [exact H1 | exact H2].
Defined.

(** * Further properties of the [transform] hook *)

Section Substrings.

Import JsString.

Lemma append_cons c a b : String c a +:+ b = String c (a +:+ b).
Proof. reflexivity. Qed.

Lemma append_nil b : "" +:+ b = b.
Proof. reflexivity. Qed.

Lemma length_append a b :
  String.length (a +:+ b) = String.length a + String.length b.
Proof.
induction a as [|c a IH]; [reflexivity|].
rewrite append_cons. simpl. f_equal. exact IH.
Qed.

Lemma append_assoc a b c : (a +:+ b) +:+ c = a +:+ (b +:+ c).
Proof.
induction a as [|x a IH]; [reflexivity|].
rewrite !append_cons. f_equal. exact IH.
Qed.

Lemma substring_0_append a b : String.substring 0 (String.length a) (a +:+ b) = a.
Proof.
induction a as [|c a IH]; [rewrite append_nil; destruct b; reflexivity|].
rewrite append_cons. simpl. f_equal. exact IH.
Qed.

Lemma substring_skip a b n m :
  String.substring (String.length a + n) m (a +:+ b) = String.substring n m b.
Proof.
induction a as [|c a IH]; [reflexivity|].
rewrite append_cons. simpl. exact IH.
Qed.

Lemma substring_all s : String.substring 0 (String.length s) s = s.
Proof.
induction s as [|c s IH]; simpl; [reflexivity | f_equal; exact IH].
Qed.

Lemma length_substring s : ∀ n m,
  String.length (String.substring n m s) = Nat.min m (String.length s - n).
Proof.
induction s as [|c s IH]; intros n m.
- destruct n, m; reflexivity.
- destruct n as [|n]; cbn [String.substring String.length].
  + destruct m as [|m]; [reflexivity|]. cbn [String.length]. rewrite IH.
    rewrite Nat.sub_0_r. reflexivity.
  + rewrite IH. reflexivity.
Qed.

(** A substring read inside the first part of a string does not depend
    on what follows. *)
Lemma substring_inside a : ∀ b n m,
  (n + m ≤ String.length a)%nat →
  String.substring n m (a +:+ b) = String.substring n m a.
Proof.
induction a as [|c a IH]; intros b n m H; cbn [String.length] in H.
- assert (n = 0) by lia. assert (m = 0) by lia. subst. destruct b; reflexivity.
- rewrite append_cons. destruct n as [|n]; cbn [String.substring].
  + destruct m as [|m]; [reflexivity|]. rewrite IH by lia. reflexivity.
  + apply IH. lia.
Qed.

Lemma includes_substring s p :
  includes s p = true → ∃ m, String.substring m (String.length p) s = p.
Proof.
induction s as [|c s IH]; cbn [includes]; intros H.
- rewrite orb_false_r in H. exists 0. apply String.prefix_correct, H.
- apply orb_true_iff in H as [H|H].
  + exists 0. apply String.prefix_correct, H.
  + destruct (IH H) as [m Hm]. exists (S m). exact Hm.
Qed.

Lemma includes_index s p :
  p ≠ "" → includes s p = true → ∃ i, String.index 0 p s = Some i.
Proof.
intros Hp H. destruct (includes_substring _ _ H) as [m Hm].
destruct (String.index 0 p s) as [i|] eqn:E; [eauto|].
exfalso. exact (String.index_correct3 0 m p s E Hp (Nat.le_0_l m) Hm).
Qed.

Lemma occurrence_fits s p i :
  p ≠ "" → String.substring i (String.length p) s = p →
  (i + String.length p ≤ String.length s)%nat.
Proof.
intros Hp H. apply (f_equal String.length) in H. rewrite length_substring in H.
destruct p as [|c p]; [contradiction|]. cbn [String.length] in *. lia.
Qed.

(** The first occurrence of [pattern] is the one replaced; what stands
    before and after it is kept. *)
Lemma replace_first_occurrence pre pattern post replacement :
  pattern ≠ "" →
  (∀ j, (j < String.length pre)%nat →
        String.substring j (String.length pattern) (pre +:+ pattern +:+ post) ≠ pattern) →
  replace (pre +:+ pattern +:+ post) pattern replacement = pre +:+ replacement +:+ post.
Proof.
intros Hp Hfirst.
assert (Hocc : String.substring (String.length pre) (String.length pattern)
                 (pre +:+ pattern +:+ post) = pattern).
{ rewrite <- (Nat.add_0_r (String.length pre)), substring_skip.
  apply substring_0_append. }
assert (Hi : String.index 0 pattern (pre +:+ pattern +:+ post)
             = Some (String.length pre)).
{ destruct (String.index 0 pattern (pre +:+ pattern +:+ post)) as [m|] eqn:E.
  - f_equal. destruct (Nat.lt_trichotomy m (String.length pre)) as [Hlt|[->|Hgt]];
      [|reflexivity|].
    + exfalso. apply (Hfirst m Hlt). apply (String.index_correct1 0), E.
    + exfalso.
      exact (String.index_correct2 0 m _ _ E (String.length pre) (Nat.le_0_l _) Hgt Hocc).
  - exfalso.
    exact (String.index_correct3 0 (String.length pre) _ _ E Hp (Nat.le_0_l _) Hocc). }
unfold replace. rewrite Hi. f_equal; [apply substring_0_append|]. f_equal.
rewrite !length_append.
replace (String.length pre + (String.length pattern + String.length post)
         - (String.length pre + String.length pattern))
  with (String.length post) by lia.
rewrite substring_skip.
rewrite <- (Nat.add_0_r (String.length pattern)), substring_skip.
apply substring_all.
Qed.

Lemma replace_length s pattern replacement :
  pattern ≠ "" →
  String.length (replace s pattern (pattern +:+ replacement))
  = String.length s + (if includes s pattern then String.length replacement else 0).
Proof.
intros Hp. destruct (includes s pattern) eqn:Hin.
- destruct (includes_index _ _ Hp Hin) as [i Hi]. unfold replace. rewrite Hi.
  pose proof (occurrence_fits _ _ _ Hp (String.index_correct1 _ _ _ _ Hi)) as Hfit.
  rewrite !length_append, !length_substring. lia.
- rewrite (replace_absent _ _ _ Hin). lia.
Qed.

Lemma markers_not_empty : FETCH_RSC_LINE ≠ "" ∧ INNER_ROUTER_LINE ≠ "".
Proof. split; discriminate. Qed.

End Substrings.

(** X17.  For a module the hook targets, when its marker occurs in
    [code], the hook inserts the injected text right after the first
    occurrence of the marker and keeps everything before and after it. *)
Theorem transform_inserts_after_first_marker
    (wakuClientDist wakuRouterClientDist id marker injection pre post : string) :
  expected_marker wakuClientDist wakuRouterClientDist id = Some marker →
  expected_injection wakuClientDist wakuRouterClientDist id = Some injection →
  (∀ j, (j < String.length pre)%nat →
        String.substring j (String.length marker) (pre +:+ marker +:+ post) ≠ marker) →
  transform wakuClientDist wakuRouterClientDist (pre +:+ marker +:+ post) id
  = Some (pre +:+ marker +:+ injection +:+ post).
Proof.
unfold expected_marker, expected_injection, transform.
destruct markers_not_empty as [Hf Hr].
destruct (JsString.startsWith id wakuClientDist).
- intros [= <-] [= <-] Hfirst.
  rewrite (replace_first_occurrence _ _ _ _ Hf Hfirst), append_assoc. reflexivity.
- destruct (JsString.startsWith id wakuRouterClientDist); [|discriminate].
  intros [= <-] [= <-] Hfirst.
  rewrite (replace_first_occurrence _ _ _ _ Hr Hfirst), append_assoc. reflexivity.
Qed.

Lemma transform_inserts_after_first_marker_witness :
  transform "/waku/dist/client.js" "/waku/dist/router/client.js"
            ("a;" +:+ INNER_ROUTER_LINE +:+ " return null }")
            "/waku/dist/router/client.js"
  = Some ("a;" +:+ INNER_ROUTER_LINE +:+ innerRouter_injection +:+ " return null }").
Proof.
apply (transform_inserts_after_first_marker _ _ _ INNER_ROUTER_LINE
         innerRouter_injection "a;" " return null }").
- reflexivity.
- reflexivity.
- intros j Hj. cbn in Hj.
  destruct j as [|[|j]]; [discriminate | discriminate | lia].
Defined.

(** X18.  For a module the hook targets, the hook returns a string that
    is longer than [code] by the length of the injected text when the
    marker occurs in [code], and of the same length otherwise: it
    removes nothing and injects at most once. *)
Theorem transform_adds_only_the_injection
    (wakuClientDist wakuRouterClientDist code id marker injection : string) :
  expected_marker wakuClientDist wakuRouterClientDist id = Some marker →
  expected_injection wakuClientDist wakuRouterClientDist id = Some injection →
  ∃ out,
    transform wakuClientDist wakuRouterClientDist code id = Some out
    ∧ String.length out
      = String.length code
        + (if JsString.includes code marker then String.length injection else 0).
Proof.
unfold expected_marker, expected_injection, transform.
destruct markers_not_empty as [Hf Hr].
destruct (JsString.startsWith id wakuClientDist).
- intros [= <-] [= <-]. eexists. split; [reflexivity|]. apply replace_length, Hf.
- destruct (JsString.startsWith id wakuRouterClientDist); [|discriminate].
  intros [= <-] [= <-]. eexists. split; [reflexivity|]. apply replace_length, Hr.
Qed.

Lemma transform_adds_only_the_injection_witness :
  ∃ out,
    transform "/waku/dist/client.js" "/waku/dist/router/client.js"
              ("a;" +:+ FETCH_RSC_LINE +:+ "}") "/waku/dist/client.js" = Some out
    ∧ String.length out
      = String.length ("a;" +:+ FETCH_RSC_LINE +:+ "}") + String.length fetchRSC_injection.
Proof.
destruct (transform_adds_only_the_injection
            "/waku/dist/client.js" "/waku/dist/router/client.js"
            ("a;" +:+ FETCH_RSC_LINE +:+ "}") "/waku/dist/client.js"
            FETCH_RSC_LINE fetchRSC_injection eq_refl eq_refl) as (out & H1 & H2).
exists out. split; [exact H1|]. rewrite H2. reflexivity.
Defined.

(** X19.  The hook does not recognise its own output: given the string
    it returned, it finds the marker at the same place and injects the
    text a second time. *)
Theorem transform_twice_injects_twice
    (wakuClientDist wakuRouterClientDist id marker injection pre post : string) :
  expected_marker wakuClientDist wakuRouterClientDist id = Some marker →
  expected_injection wakuClientDist wakuRouterClientDist id = Some injection →
  (∀ j, (j < String.length pre)%nat →
        String.substring j (String.length marker) (pre +:+ marker +:+ post) ≠ marker) →
  transform wakuClientDist wakuRouterClientDist
            (pre +:+ marker +:+ injection +:+ post) id
  = Some (pre +:+ marker +:+ injection +:+ injection +:+ post).
Proof.
intros Hm Hi Hfirst.
assert (Hfirst' : ∀ j, (j < String.length pre)%nat →
          String.substring j (String.length marker)
            (pre +:+ marker +:+ injection +:+ post) ≠ marker).
{ intros j Hj. specialize (Hfirst j Hj).
  rewrite <- append_assoc in Hfirst |- *.
  rewrite substring_inside in Hfirst |- * by (rewrite length_append; lia).
  exact Hfirst. }
revert Hm Hi. unfold expected_marker, expected_injection, transform.
destruct markers_not_empty as [Hf Hr].
destruct (JsString.startsWith id wakuClientDist).
- intros [= <-] [= <-].
  rewrite (replace_first_occurrence _ _ _ _ Hf Hfirst'), append_assoc. reflexivity.
- destruct (JsString.startsWith id wakuRouterClientDist); [|discriminate].
  intros [= <-] [= <-].
  rewrite (replace_first_occurrence _ _ _ _ Hr Hfirst'), append_assoc. reflexivity.
Qed.

Lemma transform_twice_injects_twice_witness :
  transform "/waku/dist/client.js" "/waku/dist/router/client.js"
            ("a;" +:+ INNER_ROUTER_LINE +:+ innerRouter_injection +:+ " return null }")
            "/waku/dist/router/client.js"
  = Some ("a;" +:+ INNER_ROUTER_LINE +:+ innerRouter_injection
          +:+ innerRouter_injection +:+ " return null }").
Proof.
apply (transform_twice_injects_twice _ _ _ INNER_ROUTER_LINE
         innerRouter_injection "a;" " return null }").
- reflexivity.
- reflexivity.
- intros j Hj. cbn in Hj.
  destruct j as [|[|j]]; [discriminate | discriminate | lia].
Defined.

(** * Properties of the command line entry point *)

Section CommandLine.

Lemma or_else_some s b : s ≠ "" → Js.or_else (Some s) b = Some s.
Proof.
intros H. unfold Js.or_else, Js.truthy_string.
destruct (String.eqb_spec s ""); [contradiction | reflexivity].
Qed.

Lemma or_else_none b : Js.or_else None b = b.
Proof. reflexivity. Qed.

Lemma startServer_busy listen fuel port message :
  serve listen port = ErrorEvent (Some "EADDRINUSE") message →
  startServer listen (S fuel) port
  = WarnInUse port (port + 1) :: startServer listen fuel (port + 1).
Proof. intros H. cbn [startServer]. rewrite H. reflexivity. Qed.

Lemma serve_event_in_range listen port code message :
  serve listen port = ErrorEvent code message → (port ≤ max_port)%N.
Proof.
unfold serve. destruct (N.ltb_spec max_port port); [discriminate | intros _; assumption].
Qed.

Lemma startServer_run listen k : ∀ port fuel,
  (∀ i, (i < k)%nat → ∃ message,
        serve listen (port + N.of_nat i) = ErrorEvent (Some "EADDRINUSE") message) →
  (∀ message,
     serve listen (port + N.of_nat k) ≠ ErrorEvent (Some "EADDRINUSE") message) →
  (k < fuel)%nat →
  startServer listen fuel port
  = List.map (λ i, WarnInUse (port + N.of_nat i) (port + N.of_nat i + 1)) (seq 0 k)
    ++ [match serve listen (port + N.of_nat k) with
        | Listening => Ready (port + N.of_nat k)
        | ErrorEvent _ message => Failed message
        | Throws => Rejected (port + N.of_nat k)
        end].
Proof.
induction k as [|k IH]; intros port fuel Hbusy Hlast Hfuel.
- destruct fuel as [|fuel]; [lia|]. cbn [seq List.map app startServer].
  change (N.of_nat 0) with 0%N in *. rewrite N.add_0_r in *.
  destruct (serve listen port) as [|[c|] message|] eqn:E; try reflexivity.
  destruct (String.eqb_spec c "EADDRINUSE") as [->|_]; [|reflexivity].
  exfalso. exact (Hlast message eq_refl).
- destruct fuel as [|fuel]; [lia|].
  destruct (Hbusy 0%nat ltac:(lia)) as [message Hm].
  change (N.of_nat 0) with 0%N in Hm. rewrite N.add_0_r in Hm.
  rewrite (startServer_busy _ _ _ _ Hm).
  rewrite (IH (port + 1)%N fuel).
  + cbn [seq List.map app]. change (N.of_nat 0) with 0%N. rewrite N.add_0_r.
    f_equal. rewrite <- seq_shift, List.map_map.
    replace (port + 1 + N.of_nat k)%N with (port + N.of_nat (S k))%N by lia.
    f_equal. apply List.map_ext. intros i. f_equal; lia.
  + intros i Hi. destruct (Hbusy (S i) ltac:(lia)) as [m Hm'].
    exists m. rewrite <- Hm'. f_equal. lia.
  + intros m. replace (port + 1 + N.of_nat k)%N with (port + N.of_nat (S k))%N by lia.
    apply Hlast.
  + lia.
Qed.

Lemma slice_0_neg_suffix stem ext :
  ext ≠ "" → Js.slice_0_neg (stem +:+ ext) (String.length ext) = stem.
Proof.
intros He. unfold Js.slice_0_neg.
destruct ext as [|c ext]; [contradiction|]. cbn [String.length Nat.eqb].
rewrite length_append. cbn [String.length].
replace (String.length stem + S (String.length ext) - S (String.length ext))
  with (String.length stem) by lia.
apply substring_0_append.
Qed.

End CommandLine.

(** X20.  The entry point runs a command exactly when neither
    [--version] nor [--help] is given and the first positional argument
    is [dev], [build] or [start]; it then runs that command alone, and
    the other positional arguments play no part. *)
Theorem cli_runs_command_iff (values : ParsedValues) (positionals : list string) :
  (existsb runs_command (cli_main values positionals) = true
   ↔ Js.truthy (version values) = false
     ∧ Js.truthy (help values) = false
     ∧ ∃ cmd rest, positionals = cmd :: rest
                   ∧ (cmd = "dev" ∨ cmd = "build" ∨ cmd = "start"))
  ∧ (existsb runs_command (cli_main values positionals) = true →
     List.length (cli_main values positionals) = 1)
  ∧ (∀ cmd rest, cli_main values (cmd :: rest) = cli_main values [cmd]).
Proof.
split; [|split].
- unfold cli_main.
  destruct (Js.truthy (version values)); [split; [discriminate | intros [[=] _]]|].
  destruct (Js.truthy (help values)); [split; [discriminate | intros (_ & [=] & _)]|].
  destruct positionals as [|c rest]; cbn [hd_error].
  + split; [discriminate | intros (_ & _ & c & rest & [=] & _)].
  + destruct (String.eqb_spec c "dev") as [->|Hd].
    { split; [|reflexivity]. intros _. repeat split. exists "dev", rest. auto. }
    destruct (String.eqb_spec c "build") as [->|Hb].
    { split; [|reflexivity]. intros _. repeat split. exists "build", rest. auto. }
    destruct (String.eqb_spec c "start") as [->|Hs].
    { split; [|reflexivity]. intros _. repeat split. exists "start", rest. auto. }
    split.
    * destruct (Js.truthy_string (Some c)); discriminate.
    * intros (_ & _ & c' & rest' & [= <- <-] & [E|[E|E]]); contradiction.
- unfold cli_main.
  destruct (Js.truthy (version values)); [discriminate|].
  destruct (Js.truthy (help values)); [discriminate|].
  destruct positionals as [|c rest]; cbn [hd_error]; [discriminate|].
  destruct (String.eqb c "dev"); [reflexivity|].
  destruct (String.eqb c "build"); [reflexivity|].
  destruct (String.eqb c "start"); [reflexivity|].
  destruct (Js.truthy_string (Some c)); discriminate.
- reflexivity.
Qed.

(** X21.  When [--with-vercel] is given, or is absent while the variable
    [VERCEL] holds any non-empty string, [deploy] is a Vercel target
    whatever the other options and [NETLIFY] are; [--with-vercel-static]
    chooses between the two. *)
Theorem deploy_vercel_comes_first (values : ParsedValues)
    (VERCEL NETLIFY : option string) :
  with_vercel values = Some true
  ∨ (with_vercel values = None ∧ ∃ s, VERCEL = Some s ∧ s ≠ "") →
  deploy values VERCEL NETLIFY
  = Some (if Js.truthy (with_vercel_static values)
          then "vercel-static" else "vercel-serverless").
Proof.
intros H.
assert (Hon : Js.nullish (with_vercel values) (Js.truthy_string VERCEL) = true).
{ destruct H as [->|[-> (s & -> & Hs)]]; [reflexivity|].
  cbn. destruct (String.eqb_spec s ""); [contradiction | reflexivity]. }
unfold deploy. rewrite Hon.
destruct (Js.truthy (with_vercel_static values)); reflexivity.
Qed.

Lemma deploy_vercel_comes_first_witness :
  deploy (mkValues None None None (Some true) (Some true) None None (Some true) None None)
         (Some "0") (Some "true")
  = Some "vercel-serverless".
Proof.
rewrite deploy_vercel_comes_first; [reflexivity|].
right. split; [reflexivity|]. exists "0". split; [reflexivity | discriminate].
Defined.

(** X22.  An option that is given decides alone: with [--with-vercel]
    given, true or false, [deploy] does not depend on [VERCEL], and with
    [--with-netlify] given it does not depend on [NETLIFY]. *)
Theorem deploy_flag_overrides_environment (values : ParsedValues)
    (VERCEL NETLIFY : option string) :
  (is_Some (with_vercel values) →
     deploy values VERCEL NETLIFY = deploy values None NETLIFY)
  ∧ (is_Some (with_netlify values) →
     deploy values VERCEL NETLIFY = deploy values VERCEL None).
Proof.
split; intros [b Hb]; unfold deploy; rewrite Hb; reflexivity.
Qed.

Lemma deploy_flag_overrides_environment_witness :
  deploy (mkValues None (Some false) None None None None None None None None)
         (Some "1") None
  = None.
Proof.
destruct (deploy_flag_overrides_environment
            (mkValues None (Some false) None None None None None None None None)
            (Some "1") None) as [H _].
rewrite H; [reflexivity | eexists; reflexivity].
Defined.

(** X23.  [deploy] is [undefined] exactly when no target is switched on:
    Vercel and Netlify are off (the option is [false], or absent with
    the variable unset or empty) and none of [--with-cloudflare],
    [--with-deno], [--with-aws-lambda] is given. *)
Theorem deploy_none_iff (values : ParsedValues) (VERCEL NETLIFY : option string) :
  deploy values VERCEL NETLIFY = None
  ↔ (with_vercel values = Some false
     ∨ (with_vercel values = None ∧ (VERCEL = None ∨ VERCEL = Some "")))
    ∧ Js.truthy (with_cloudflare values) = false
    ∧ Js.truthy (with_deno values) = false
    ∧ (with_netlify values = Some false
       ∨ (with_netlify values = None ∧ (NETLIFY = None ∨ NETLIFY = Some "")))
    ∧ Js.truthy (with_aws_lambda values) = false.
Proof.
assert (Hoff : ∀ (flag : option bool) (var : option string),
          Js.nullish flag (Js.truthy_string var) = false
          ↔ flag = Some false ∨ (flag = None ∧ (var = None ∨ var = Some ""))).
{ intros [[|]|] var; cbn.
  - split; [discriminate | intros [[=]|[[=] _]]].
  - split; auto.
  - destruct var as [s|]; cbn.
    + destruct (String.eqb_spec s "") as [->|Hs]; cbn.
      * split; auto.
      * split; [discriminate|]. intros [[=]|[_ [[=]|[= E]]]]. contradiction.
    + split; auto. }
unfold deploy.
rewrite <- (Hoff (with_vercel values) VERCEL), <- (Hoff (with_netlify values) NETLIFY).
destruct (Js.nullish (with_vercel values) (Js.truthy_string VERCEL)).
{ split; [|intros [[=] _]].
  destruct (Js.truthy (with_vercel_static values)); discriminate. }
rewrite or_else_none.
destruct (Js.truthy (with_cloudflare values)).
{ split; [discriminate | intros (_ & [=] & _)]. }
rewrite or_else_none.
destruct (Js.truthy (with_deno values)).
{ split; [discriminate | intros (_ & _ & [=] & _)]. }
rewrite or_else_none.
destruct (Js.nullish (with_netlify values) (Js.truthy_string NETLIFY)).
{ split; [|intros (_ & _ & _ & [=] & _)].
  destruct (Js.truthy (with_netlify_static values)); discriminate. }
rewrite or_else_none.
destruct (Js.truthy (with_aws_lambda values)).
{ split; [discriminate | intros (_ & _ & _ & _ & [=])]. }
split; auto.
Qed.

(** X24.  [startServer] goes up from [port] one port at a time while the
    server reports [EADDRINUSE], with one warning for each port in use,
    and stops at the first port with another outcome: it says that it is
    ready when the server listens there, that it failed when the server
    reports another error, and says nothing when [serve] throws, as it
    does for the port after [max_port]; it tries no further port.  The
    ports in use it goes through end at [max_port] at the latest. *)
Theorem startServer_stops_at_first_other_outcome
    (listen : N → ListenOutcome) (port : N) (k fuel : nat) :
  (∀ i, (i < k)%nat → ∃ message,
        serve listen (port + N.of_nat i) = ErrorEvent (Some "EADDRINUSE") message) →
  (∀ message,
     serve listen (port + N.of_nat k) ≠ ErrorEvent (Some "EADDRINUSE") message) →
  (k < fuel)%nat →
  startServer listen fuel port
  = List.map (λ i, WarnInUse (port + N.of_nat i) (port + N.of_nat i + 1)) (seq 0 k)
    ++ [match serve listen (port + N.of_nat k) with
        | Listening => Ready (port + N.of_nat k)
        | ErrorEvent _ message => Failed message
        | Throws => Rejected (port + N.of_nat k)
        end]
  ∧ ((max_port < port + N.of_nat k)%N → serve listen (port + N.of_nat k) = Throws)
  ∧ ((0 < k)%nat → (port + N.of_nat k ≤ max_port + 1)%N).
Proof.
intros Hbusy Hlast Hfuel. split; [|split].
- apply startServer_run; assumption.
- intros Hgt. unfold serve.
  destruct (N.ltb_spec max_port (port + N.of_nat k)); [reflexivity | lia].
- intros Hpos. destruct (Hbusy (k - 1)%nat ltac:(lia)) as [message Hm].
  apply serve_event_in_range in Hm. lia.
Qed.

Lemma startServer_stops_at_first_other_outcome_witness :
  let busy := λ _ : N, ErrorEvent (Some "EADDRINUSE") "address already in use" in
  let free_at_3002 := λ p : N, if (p <? 3002)%N then busy p else Listening in
  startServer free_at_3002 5 3000
  = [WarnInUse 3000 3001; WarnInUse 3001 3002; Ready 3002]
  ∧ startServer busy 5 65534
    = [WarnInUse 65534 65535; WarnInUse 65535 65536; Rejected 65536].
Proof.
intros busy free_at_3002. split.
- destruct (startServer_stops_at_first_other_outcome free_at_3002 3000 2 5) as [H _].
  + intros i Hi. exists "address already in use".
    destruct i as [|[|i]]; [reflexivity | reflexivity | lia].
  + intros message. discriminate.
  + lia.
  + rewrite H. reflexivity.
- destruct (startServer_stops_at_first_other_outcome busy 65534 2 5) as [H _].
  + intros i Hi. exists "address already in use".
    destruct i as [|[|i]]; [reflexivity | reflexivity | lia].
  + intros message. discriminate.
  + lia.
  + rewrite H. reflexivity.
Defined.

(** X25.  In production [loadApi] looks under [dist] for the file named
    like [apiJs] with its extension replaced by [.js]; when [extname]
    finds no extension the whole name is dropped, and the file looked
    for is [.js]. *)
Theorem prd_api_path (extname : string → string)
    (path_resolve : string → string → string) (stem ext : string) :
  extname (stem +:+ ext) = ext →
  apiJsPath extname path_resolve prd (stem +:+ ext)
  = path_resolve "dist" (if String.eqb ext "" then ".js" else stem +:+ ".js").
Proof.
intros He. unfold apiJsPath. rewrite He.
destruct (String.eqb_spec ext "") as [->|Hne].
- reflexivity.
- rewrite (slice_0_neg_suffix _ _ Hne). reflexivity.
Qed.

Lemma prd_api_path_witness :
  let extname := λ s : string, if String.eqb s "api.ts" then ".ts" else "" in
  let path_resolve := λ a b : string, a +:+ "/" +:+ b in
  apiJsPath extname path_resolve prd "api.ts" = "dist/api.js"
  ∧ apiJsPath extname path_resolve prd "api" = "dist/.js".
Proof.
intros extname path_resolve. split.
- exact (prd_api_path extname path_resolve "api" ".ts" eq_refl).
- exact (prd_api_path extname path_resolve "api" "" eq_refl).
Defined.

Lemma endsWith_append s p : JsString.endsWith (s +:+ p) p = true.
Proof.
unfold JsString.endsWith. rewrite length_append.
replace (String.length s + String.length p - String.length p)
  with (String.length s + 0) by lia.
rewrite substring_skip, substring_all, String.eqb_refl.
apply andb_true_iff. split; [|reflexivity]. apply Nat.leb_le. lia.
Qed.

Lemma endsWith_prepend a b p :
  JsString.endsWith b p = true → JsString.endsWith (a +:+ b) p = true.
Proof.
unfold JsString.endsWith. intros H. apply andb_true_iff in H as [Hlen Heq].
apply Nat.leb_le in Hlen. rewrite length_append.
replace (String.length a + String.length b - String.length p)
  with (String.length a + (String.length b - String.length p)) by lia.
rewrite substring_skip, Heq.
apply andb_true_iff. split; [|reflexivity]. apply Nat.leb_le. lia.
Qed.

(** X26.  In production [loadApi] never transpiles: provided
    [path.resolve] with [dist] turns a file name ending in [.js] into a
    path ending in [.js], whatever [loadApi] returns for [prd] is a file
    imported as it is, since the name it builds always ends in [.js]. *)
Theorem prd_api_is_never_transpiled (extname : string → string)
    (path_resolve : string → string → string) (existsSync : string → bool)
    (apiJs : option string) (src : ApiSource) :
  (∀ b, JsString.endsWith b ".js" = true →
        JsString.endsWith (path_resolve "dist" b) ".js" = true) →
  loadApi extname path_resolve existsSync apiJs prd = Some src →
  ∃ a, apiJs = Some a
       ∧ src = ImportJs (apiJsPath extname path_resolve prd a)
       ∧ existsSync (apiJsPath extname path_resolve prd a) = true.
Proof.
intros Hres. unfold loadApi.
destruct (Js.truthy_string apiJs); cbn [negb]; [|discriminate].
destruct apiJs as [a|]; [|discriminate]. cbv zeta.
destruct (existsSync (apiJsPath extname path_resolve prd a)) eqn:He;
  cbn [negb]; [|discriminate].
assert (Hjs : JsString.endsWith (apiJsPath extname path_resolve prd a) ".js" = true).
{ unfold apiJsPath. apply Hres, endsWith_append. }
rewrite Hjs. intros [= <-]. exists a. repeat split. exact He.
Qed.

Lemma prd_api_is_never_transpiled_witness :
  let extname := λ s : string, if String.eqb s "api.ts" then ".ts" else "" in
  let path_resolve := λ a b : string, "/app/" +:+ a +:+ "/" +:+ b in
  let existsSync := λ p : string, String.eqb p "/app/dist/api.js" in
  ∃ a, Some "api.ts" = Some a
       ∧ ImportJs "/app/dist/api.js"
         = ImportJs (apiJsPath extname path_resolve prd a)
       ∧ existsSync (apiJsPath extname path_resolve prd a) = true.
Proof.
intros extname path_resolve existsSync.
apply (prd_api_is_never_transpiled extname path_resolve existsSync
         (Some "api.ts") (ImportJs "/app/dist/api.js")).
- intros b Hb. unfold path_resolve.
  apply endsWith_prepend, endsWith_prepend, endsWith_prepend, Hb.
- reflexivity.
Defined.
